(** * Verification of the OSCR37 fan plugin: command model, status parser,
      accessory adapter and coalescing status cache.

    Sources embedded here:
    - [src/src/alexaApi.ts]: commands, [FanStatus], [parseDeviceResponse],
      [parseCapabilityStates];
    - [src/unnamed/part_000]: the final accessory (the [fanStatus$] pipeline,
      [poller.poll], [setIntensity], [getIntensity],
      [fanIntensityToPercentage]);
    - [src/src/platformAccessory.ts]: the earlier accessory's [setIntensity]. *)

From Stdlib Require Import Strings.String Strings.Ascii Lists.List ZArith Bool Lia.
Import ListNotations.
Open Scope string_scope.
Set Warnings "-register-all".

(* ------------------------------------------------------------------ *)
(** ** JavaScript values produced by [JSON.parse] *)

Inductive json : Type :=
| JNull
| JBool (b : bool)
| JNum (lexeme : string)   (* numeric value never inspected by the code *)
| JStr (s : string)
| JArr (items : list json)
| JObj (fields : list (string * json)).  (* in source order *)

(** Errors thrown (or emitted as error notifications) along the read path. *)
Inductive JsError : Type :=
| UnsupportedIntensity   (* [new Error(`Unsupported state for fan intensity...`)] *)
| TypeError              (* property read on [null], or failing [ToString] *)
| SyntaxError            (* [JSON.parse] on a malformed text *)
| NoDeviceState          (* [new Error('No device state received')] *)
| QueryFailure           (* error passed to the [querySmarthomeDevices] callback *)
| TimeoutError           (* [timeout(apiConfig.timeout)] of the readiness gate *)
| UnexpectedIntensity    (* [fanIntensityToPercentage]'s default branch *)
| CommunicationFailure.  (* [HapStatusError(SERVICE_COMMUNICATION_FAILURE)] *)

Inductive result (A : Type) : Type :=
| Ok (a : A)
| Throw (e : JsError).
Arguments Ok {A} a.
Arguments Throw {A} e.

(* ------------------------------------------------------------------ *)
(** ** [JSON.parse]

    JSON texts are byte strings (UTF-8).  The grammar is RFC 8259's: the
    literals, numbers with optional fraction and exponent (kept as their
    lexeme), strings with all escapes, arrays and objects, surrounded by
    optional whitespace.  A [\uXXXX] escape is decoded to the UTF-8 bytes of
    its code unit (a surrogate pair stays two 3-byte units).  Object members
    are kept in source order; a property read takes the last binding, as the
    object [JSON.parse] builds does. *)

Definition chr (n : nat) : ascii := ascii_of_nat n.

(** The double quote character. *)
Definition quote_char : ascii := chr 34.

Definition is_ws (c : ascii) : bool :=
  Ascii.eqb c (" "%char) || Ascii.eqb c (chr 9) || Ascii.eqb c (chr 10) || Ascii.eqb c (chr 13).

Fixpoint skip_ws (l : list ascii) : list ascii :=
  match l with
  | c :: r => if is_ws c then skip_ws r else l
  | [] => []
  end.

Definition is_digit (c : ascii) : bool :=
  (Nat.leb 48 (nat_of_ascii c)) && (Nat.leb (nat_of_ascii c) 57).

Fixpoint span_digits (l : list ascii) : list ascii * list ascii :=
  match l with
  | c :: r => if is_digit c then let '(d, r') := span_digits r in (c :: d, r') else ([], l)
  | [] => ([], [])
  end.

(** [1*DIGIT] *)
Definition digits1 (l : list ascii) : option (list ascii * list ascii) :=
  match span_digits l with
  | ([], _) => None
  | (d, r) => Some (d, r)
  end.

(** [number = [ minus ] int [ frac ] [ exp ]] *)
Definition lex_number (l : list ascii) : option (list ascii * list ascii) :=
  let '(sgn, l1) := match l with
                    | c :: r => if Ascii.eqb c ("-"%char) then ([c], r) else ([], l)
                    | [] => ([], [])
                    end in
  let int_part :=
    match l1 with
    | c :: r => if Ascii.eqb c ("0"%char) then Some ([c], r) else digits1 l1
    | [] => None
    end in
  match int_part with
  | None => None
  | Some (i, l2) =>
      let frac :=
        match l2 with
        | c :: r => if Ascii.eqb c ("."%char) then
                      match digits1 r with
                      | Some (d, r') => Some (c :: d, r')
                      | None => None
                      end
                    else Some ([], l2)
        | [] => Some ([], [])
        end in
      match frac with
      | None => None
      | Some (f, l3) =>
          let ex :=
            match l3 with
            | c :: r =>
                if Ascii.eqb c ("e"%char) || Ascii.eqb c ("E"%char) then
                  let '(s, r1) := match r with
                                  | d :: r' => if Ascii.eqb d ("+"%char) || Ascii.eqb d ("-"%char)
                                               then ([d], r') else ([], r)
                                  | [] => ([], [])
                                  end in
                  match digits1 r1 with
                  | Some (d, r') => Some (c :: (s ++ d)%list, r')
                  | None => None
                  end
                else Some ([], l3)
            | [] => Some ([], [])
            end in
          match ex with
          | None => None
          | Some (e, l4) => Some ((sgn ++ i ++ f ++ e)%list, l4)
          end
      end
  end.

Definition hex_val (c : ascii) : option nat :=
  let n := nat_of_ascii c in
  if (Nat.leb 48 n) && (Nat.leb n 57) then Some (n - 48)
  else if (Nat.leb 65 n) && (Nat.leb n 70) then Some (n - 55)
  else if (Nat.leb 97 n) && (Nat.leb n 102) then Some (n - 87)
  else None.

(** UTF-8 bytes of one UTF-16 code unit. *)
Definition utf8_unit (u : nat) : list ascii :=
  if Nat.ltb u 128 then [chr u]
  else if Nat.ltb u 2048 then [chr (192 + u / 64); chr (128 + u mod 64)]
  else [chr (224 + u / 4096); chr (128 + (u / 64) mod 64); chr (128 + u mod 64)].

(** Body of a string literal, after the opening quote. *)
Fixpoint lex_string (l : list ascii) (acc : list ascii) : option (string * list ascii) :=
  match l with
  | [] => None
  | c :: r =>
      if Ascii.eqb c quote_char then Some (string_of_list_ascii (rev acc), r)
      else if Ascii.eqb c ("\"%char) then
        match r with
        | e :: r' =>
            if Ascii.eqb e quote_char || Ascii.eqb e ("\"%char) || Ascii.eqb e ("/"%char) then lex_string r' (e :: acc)
            else if Ascii.eqb e ("b"%char) then lex_string r' (chr 8 :: acc)
            else if Ascii.eqb e ("f"%char) then lex_string r' (chr 12 :: acc)
            else if Ascii.eqb e ("n"%char) then lex_string r' (chr 10 :: acc)
            else if Ascii.eqb e ("r"%char) then lex_string r' (chr 13 :: acc)
            else if Ascii.eqb e ("t"%char) then lex_string r' (chr 9 :: acc)
            else if Ascii.eqb e ("u"%char) then
              match r' with
              | h1 :: h2 :: h3 :: h4 :: r'' =>
                  match hex_val h1, hex_val h2, hex_val h3, hex_val h4 with
                  | Some a, Some b, Some c', Some d =>
                      lex_string r'' (rev (utf8_unit (((a * 16 + b) * 16 + c') * 16 + d)) ++ acc)%list
                  | _, _, _, _ => None
                  end
              | _ => None
              end
            else None
        | [] => None
        end
      else if Nat.ltb (nat_of_ascii c) 32 then None
      else lex_string r (c :: acc)
  end.

Fixpoint strip_prefix (p l : list ascii) : option (list ascii) :=
  match p, l with
  | [], _ => Some l
  | a :: p', b :: l' => if Ascii.eqb a b then strip_prefix p' l' else None
  | _ :: _, [] => None
  end.

(** Recursive descent with fuel.  [pelems] and [pmembers] parse the items of
    an array and the members of an object after the opening bracket. *)
Fixpoint pvalue (n : nat) (l : list ascii) {struct n} : option (json * list ascii) :=
  match n with
  | O => None
  | S n' =>
      match skip_ws l with
      | [] => None
      | c :: r =>
          if Ascii.eqb c ("{"%char) then
            match skip_ws r with
            | d :: r' => if Ascii.eqb d ("}"%char) then Some (JObj [], r')
                         else match pmembers n' r [] with
                              | Some (fs, r'') => Some (JObj fs, r'')
                              | None => None
                              end
            | [] => None
            end
          else if Ascii.eqb c ("["%char) then
            match skip_ws r with
            | d :: r' => if Ascii.eqb d ("]"%char) then Some (JArr [], r')
                         else match pelems n' r [] with
                              | Some (vs, r'') => Some (JArr vs, r'')
                              | None => None
                              end
            | [] => None
            end
          else if Ascii.eqb c quote_char then
            match lex_string r [] with
            | Some (s, r') => Some (JStr s, r')
            | None => None
            end
          else match strip_prefix (list_ascii_of_string "true") (c :: r) with
          | Some r' => Some (JBool true, r')
          | None =>
          match strip_prefix (list_ascii_of_string "false") (c :: r) with
          | Some r' => Some (JBool false, r')
          | None =>
          match strip_prefix (list_ascii_of_string "null") (c :: r) with
          | Some r' => Some (JNull, r')
          | None =>
            match lex_number (c :: r) with
            | Some (lx, r') => Some (JNum (string_of_list_ascii lx), r')
            | None => None
            end
          end end end
      end
  end
with pelems (n : nat) (l : list ascii) (acc : list json) {struct n}
  : option (list json * list ascii) :=
  match n with
  | O => None
  | S n' =>
      match pvalue n' l with
      | None => None
      | Some (v, r) =>
          match skip_ws r with
          | c :: r' =>
              if Ascii.eqb c (","%char) then pelems n' r' (acc ++ [v])%list
              else if Ascii.eqb c ("]"%char) then Some ((acc ++ [v])%list, r')
              else None
          | [] => None
          end
      end
  end
with pmembers (n : nat) (l : list ascii) (acc : list (string * json)) {struct n}
  : option (list (string * json) * list ascii) :=
  match n with
  | O => None
  | S n' =>
      match skip_ws l with
      | q :: r =>
          if Ascii.eqb q quote_char then
            match lex_string r [] with
            | None => None
            | Some (k, r1) =>
                match skip_ws r1 with
                | col :: r2 =>
                    if Ascii.eqb col (":"%char) then
                      match pvalue n' r2 with
                      | None => None
                      | Some (v, r3) =>
                          match skip_ws r3 with
                          | c :: r4 =>
                              if Ascii.eqb c (","%char) then pmembers n' r4 (acc ++ [(k, v)])%list
                              else if Ascii.eqb c ("}"%char) then Some ((acc ++ [(k, v)])%list, r4)
                              else None
                          | [] => None
                          end
                      end
                    else None
                | [] => None
                end
            end
          else None
      | [] => None
      end
  end.

(** [JSON.parse(text)]: a value, then only whitespace.  The fuel bounds the
    number of nested calls; every two nested calls consume a character, so
    [2 * length + 2] never runs out. *)
Definition JSON_parse (text : string) : result json :=
  let l := list_ascii_of_string text in
  match pvalue (2 * List.length l + 2) l with
  | Some (v, rest) => match skip_ws rest with
                      | [] => Ok v
                      | _ => Throw SyntaxError
                      end
  | None => Throw SyntaxError
  end.

(* ------------------------------------------------------------------ *)
(** ** JavaScript operations on decoded values *)

(** [o[k]] for a value [o] that is neither [null] nor [undefined], and a key
    that is not an array index nor ["length"] (the code reads only
    ["namespace"], ["instance"] and ["value"]).  [None] is [undefined]. *)
Fixpoint last_binding (k : string) (fs : list (string * json)) : option json :=
  match fs with
  | [] => None
  | (k', v) :: r => match last_binding k r with
                    | Some w => Some w
                    | None => if String.eqb k k' then Some v else None
                    end
  end.

Definition js_get (o : json) (k : string) : option json :=
  match o with
  | JObj fs => last_binding k fs
  | _ => None
  end.

(** [x?.value] *)
Definition js_optchain (x : option json) (k : string) : option json :=
  match x with
  | None | Some JNull => None
  | Some o => js_get o k
  end.

(** [x != null] *)
Definition js_nonnull (x : option json) : bool :=
  match x with
  | None | Some JNull => false
  | Some _ => true
  end.

(** [x === 's'] *)
Definition js_is (x : option json) (s : string) : bool :=
  match x with
  | Some (JStr s') => String.eqb s' s
  | _ => false
  end.

(** Whether the template literal [`${x}`] evaluates without throwing.
    [ToString] of a parsed object calls its [toString]; an own ["toString"]
    member (never callable in parsed JSON) makes [OrdinaryToPrimitive] throw a
    [TypeError].  Arrays join the [ToString] of their items. *)
Fixpoint renders (x : json) : bool :=
  match x with
  | JObj fs => negb (existsb (fun kv => String.eqb (fst kv) "toString") fs)
  | JArr items => forallb renders items
  | _ => true
  end.

(* ------------------------------------------------------------------ *)
(** ** [FanStatus] and the diagnostics the code prints *)

(** The literal types ['0' | '1' | '2' | '3' | '4']. *)
Inductive FanLevel : Type := L0 | L1 | L2 | L3 | L4.

Record FanStatus : Type := mkFanStatus {
  connected : option bool;
  isOn : option bool;
  fanIntensity : option FanLevel;
  isOscillating : option bool;
  shutdownTimer : option FanLevel
}.

Definition empty_status : FanStatus := mkFanStatus None None None None None.

Definition set_connected (b : bool) (s : FanStatus) : FanStatus :=
  mkFanStatus (Some b) (isOn s) (fanIntensity s) (isOscillating s) (shutdownTimer s).
Definition set_isOn (b : bool) (s : FanStatus) : FanStatus :=
  mkFanStatus (connected s) (Some b) (fanIntensity s) (isOscillating s) (shutdownTimer s).
Definition set_fanIntensity (l : FanLevel) (s : FanStatus) : FanStatus :=
  mkFanStatus (connected s) (isOn s) (Some l) (isOscillating s) (shutdownTimer s).
Definition set_isOscillating (b : bool) (s : FanStatus) : FanStatus :=
  mkFanStatus (connected s) (isOn s) (fanIntensity s) (Some b) (shutdownTimer s).
Definition set_shutdownTimer (l : FanLevel) (s : FanStatus) : FanStatus :=
  mkFanStatus (connected s) (isOn s) (fanIntensity s) (isOscillating s) (Some l).

(** Console output and platform log lines, in the order printed. *)
Inductive Diag : Type :=
| DLogState (state : json)          (* console.log(state) *)
| DWarnTimer                        (* Ignoring unsupported value for shutdown timer *)
| DWarnMode                         (* Ignoring mode *)
| DWarnToggle                       (* Ignoring toggle *)
| DWarnNamespace                    (* Unexpected namespace on state *)
| DErrResponse (errors : list json) (* Got errors from device state request *)
| DErrDevice (error : json)         (* Got reported error for device state *)
| DStatusError (e : JsError).       (* platform.log.error(`Error getting status: ...`) *)

(* ------------------------------------------------------------------ *)
(** ** [AlexaApi.parseCapabilityStates] *)

(** The check [value === '0' || ... || '3'] of the intensity branch. *)
Definition intensity_value (v : option json) : option FanLevel :=
  if js_is v "0" then Some L0 else if js_is v "1" then Some L1
  else if js_is v "2" then Some L2 else if js_is v "3" then Some L3 else None.

(** The check [value === '0' || ... || '4'] of the shutdown-timer branch. *)
Definition timer_value (v : option json) : option FanLevel :=
  match intensity_value v with
  | Some l => Some l
  | None => if js_is v "4" then Some L4 else None
  end.

(** [console.warn(`...${state}`)]: the template is evaluated first. *)
Definition warn (d : Diag) (state : json) (fs : FanStatus) : result (FanStatus * list Diag) :=
  if renders state then Ok (fs, [d]) else Throw TypeError.

(** One iteration of the loop body, after [console.log(state)], for a
    [state] that is not [null]; [continue] and falling off the body both
    return the status built so far. *)
Definition parse_entry (state : json) (fs : FanStatus) : result (FanStatus * list Diag) :=
    let ns := js_get state "namespace" in
    let inst := js_get state "instance" in
    let value := js_get state "value" in
    if js_is ns "Alexa.EndpointHealth" then
      Ok (set_connected (js_is (js_optchain value "value") "OK") fs, [])
    else if js_is ns "Alexa.PowerController" then
      if js_nonnull value then Ok (set_isOn (js_is value "ON") fs, []) else Ok (fs, [])
    else if js_is ns "Alexa.ModeController" then
      if js_is inst "1" && js_nonnull value then
        match intensity_value value with
        | Some l => Ok (set_fanIntensity l fs, [])
        | None => if renders state then Throw UnsupportedIntensity else Throw TypeError
        end
      else if js_is inst "3" && js_nonnull value then
        match timer_value value with
        | Some l => Ok (set_shutdownTimer l fs, [])
        | None => warn DWarnTimer state fs
        end
      else warn DWarnMode state fs
    else if js_is ns "Alexa.ToggleController" then
      if js_is inst "2" && js_nonnull value then Ok (set_isOscillating (js_is value "ON") fs, [])
      else warn DWarnToggle state fs
    else warn DWarnNamespace state fs.

Definition parse_state (state : json) (fs : FanStatus) : result (FanStatus * list Diag) :=
  match state with
  | JNull => Throw TypeError                       (* null.namespace *)
  | _ => parse_entry state fs
  end.

(** The [for (const state of states)] loop; the diagnostics printed before a
    throw are kept. *)
Fixpoint parse_loop (states : list json) (fs : FanStatus) (log : list Diag)
  : result FanStatus * list Diag :=
  match states with
  | [] => (Ok fs, log)
  | state :: rest =>
      let log := (log ++ [DLogState state])%list in
      match parse_state state fs with
      | Throw e => (Throw e, log)
      | Ok (fs', ds) => parse_loop rest fs' (log ++ ds)%list
      end
  end.

Definition parseCapabilityStates (states : list json) : result FanStatus * list Diag :=
  parse_loop states empty_status [].

(* ------------------------------------------------------------------ *)
(** ** [AlexaApi.parseDeviceResponse] *)

(** The [DeviceQueryResult] interface; [?.] in the code tolerates absent
    lists, modelled by [None]. *)
Record DeviceState : Type := mkDeviceState {
  capabilityStates : list string;
  error : json                      (* [any]; absent is [JNull] *)
}.

Record DeviceQueryResult : Type := mkDeviceQueryResult {
  deviceStates : option (list DeviceState);
  errors : option (list json)
}.

(** A JSON number lexeme denotes zero when no digit of its mantissa (the
    part before an exponent) is non-zero: ["0"], ["-0"], ["0.00"], ["0e5"]. *)
Fixpoint zero_lexeme (n : string) : bool :=
  match n with
  | EmptyString => true
  | String c rest =>
      if Ascii.eqb c "e" || Ascii.eqb c "E" then true
      else if (Nat.leb 49 (nat_of_ascii c) && Nat.leb (nat_of_ascii c) 57)%bool then false
      else zero_lexeme rest
  end.

(** JavaScript truthiness. *)
Definition truthy (x : json) : bool :=
  match x with
  | JNull => false
  | JBool b => b
  | JNum n => negb (zero_lexeme n)
  | JStr s => negb (String.eqb s EmptyString)
  | _ => true
  end.

(** [states.map(state => JSON.parse(state))]: the first failure throws. *)
Fixpoint map_parse (l : list string) : result (list json) :=
  match l with
  | [] => Ok []
  | t :: r => match JSON_parse t with
              | Throw e => Throw e
              | Ok v => match map_parse r with
                        | Throw e => Throw e
                        | Ok vs => Ok (v :: vs)
                        end
              end
  end.

(** The observable returned (or the exception thrown inside [switchMap]):
    [Ok s] is [of(s)], [Throw e] an error notification. *)
Definition parseDeviceResponse (res : DeviceQueryResult) : result FanStatus * list Diag :=
  let log0 := match errors res with
              | Some ((_ :: _) as es) => [DErrResponse es]
              | _ => []
              end in
  match deviceStates res with
  | None | Some [] => (Throw NoDeviceState, log0)
  | Some (deviceState :: _) =>
      let log1 := (log0 ++ (if truthy (error deviceState) then [DErrDevice (error deviceState)] else []))%list in
      match map_parse (capabilityStates deviceState) with
      | Throw e => (Throw e, log1)
      | Ok states => let '(r, log2) := parseCapabilityStates states in (r, log1 ++ log2)%list
      end
  end.

(** Sample JSON texts are written with ['] in place of the double quote. *)
Fixpoint jtext_list (l : list ascii) : list ascii :=
  match l with
  | c :: r => (if Ascii.eqb c ("'"%char) then quote_char else c) :: jtext_list r
  | [] => []
  end.

Definition jtext (s : string) : string := string_of_list_ascii (jtext_list (list_ascii_of_string s)).

Definition power_on_text := (jtext "{'namespace':'Alexa.PowerController','name':'powerState','value':'ON'}").
Definition intensity_2_text := (jtext "{'namespace':'Alexa.ModeController','instance':'1','value':'2'}").
Definition osc_off_text := (jtext "{'namespace':'Alexa.ToggleController','instance':'2','value':'OFF'}").

(* ------------------------------------------------------------------ *)
(** ** Commands ([FanPowerToggleCommand], [FanIntensityChangeCommand],
       [FanOscillationToggleCommand]) *)

(** The intensity is declared ['0' | '1' | '2' | '3'], but [setIntensity]
    passes any string through an [as] cast, so at run time it is a string. *)
Inductive FanCommand : Type :=
| FanPowerToggleCommand (isOn : bool)
| FanIntensityChangeCommand (intensity : string)
| FanOscillationToggleCommand (isOscillating : bool).

(** The object [toObject()] returns; an absent key is [None]. *)
Record WireAction : Type := mkWireAction {
  action : string;
  instance : option string;
  mode : option string
}.

Definition toObject (c : FanCommand) : WireAction :=
  match c with
  | FanPowerToggleCommand isOn =>
      mkWireAction (if isOn then "turnOn" else "turnOff") None None
  | FanIntensityChangeCommand intensity =>
      mkWireAction "setModeValue" (Some "1") (Some intensity)
  | FanOscillationToggleCommand isOscillating =>
      mkWireAction (if isOscillating then "turnOnToggle" else "turnOffToggle") (Some "2") None
  end.

(* ------------------------------------------------------------------ *)
(** ** Number formatting *)

Definition digit_char (d : Z) : ascii := ascii_of_nat (48 + Z.to_nat d).

Fixpoint digits_rev (fuel : nat) (n : Z) (acc : string) : string :=
  match fuel with
  | O => acc
  | S f => let acc' := String (digit_char (n mod 10)) acc in
           if Z.eqb (n / 10) 0 then acc' else digits_rev f (n / 10) acc'
  end.

(** [n.toFixed(0)] for an integer [n] below [1e21]: its decimal form.  A
    number has at most as many decimal digits as bits. *)
Definition toFixed0 (n : Z) : string :=
  let m := Z.abs n in
  let ds := digits_rev (S (Z.to_nat (Z.log2 m))) m EmptyString in
  if Z.ltb n 0 then "-" ++ ds else ds.

(* ------------------------------------------------------------------ *)
(** ** The final accessory ([src/unnamed/part_000]) *)

Module Accessory.

(** [setIntensity(value)]: the commands passed to [sendDeviceAction].
    Percentages are integers (the characteristic steps by 25 from 0 to 100);
    [Math.floor] of the quotient is floor division. *)
Definition setIntensity (value : Z) : list FanCommand :=
  if Z.eqb value 0 then []          (* 'Refusing to set intensity to 0' *)
  else let intensity := Z.div (value - 1) 25 in
       [FanIntensityChangeCommand (toFixed0 intensity)].

(** [setActive(value)] with [value] already compared to [ACTIVE]. *)
Definition setActive (isOn : bool) : list FanCommand := [FanPowerToggleCommand isOn].

Definition fanIntensityToPercentage (intensity : FanLevel) : result Z :=
  match intensity with
  | L0 => Ok 25%Z
  | L1 => Ok 50%Z
  | L2 => Ok 75%Z
  | L3 => Ok 100%Z
  | L4 => Throw UnexpectedIntensity
  end.

(** [getIntensity()] after [await newState]. *)
Definition getIntensity_after (status : FanStatus) : result Z :=
  match fanIntensity status with
  | None => Throw CommunicationFailure
  | Some fi => fanIntensityToPercentage fi
  end.

Definition level_eqb (a b : FanLevel) : bool :=
  match a, b with
  | L0, L0 | L1, L1 | L2, L2 | L3, L3 | L4, L4 => true
  | _, _ => false
  end.

(** [a !== b] on optional fields ([undefined] is [None]). *)
Definition opt_neq {A} (eqb : A -> A -> bool) (a b : option A) : bool :=
  match a, b with
  | None, None => false
  | Some x, Some y => negb (eqb x y)
  | _, _ => true
  end.

(** [poller.poll()] after [const current = await newState]: the value
    returned ([None] is [null]) and the new [this.previous]. *)
Definition poll_after (previous : option FanStatus) (current : FanStatus)
  : option FanStatus * option FanStatus :=
  let isChanged :=
    match previous with
    | None => true
    | Some prev =>
        opt_neq Bool.eqb (isOn current) (isOn prev)
        || opt_neq level_eqb (fanIntensity current) (fanIntensity prev)
        || opt_neq Bool.eqb (isOscillating current) (isOscillating prev)
    end in
  let previous' := Some current in
  if isChanged then (Some current, previous') else (None, previous').

(** [Characteristic.Active.ACTIVE] / [INACTIVE]. *)
Inductive ActiveValue : Type := INACTIVE | ACTIVE.

(** [Characteristic.SwingMode.SWING_ENABLED] / [SWING_DISABLED]. *)
Inductive SwingValue : Type := SWING_DISABLED | SWING_ENABLED.

(** [getActive()] after [await newState]. *)
Definition getActive_after (status : FanStatus) : result ActiveValue :=
  match isOn status with
  | None => Throw CommunicationFailure
  | Some b => Ok (if b then ACTIVE else INACTIVE)
  end.

(** [getSwingMode()] after [await newState]. *)
Definition getSwingMode_after (status : FanStatus) : result SwingValue :=
  match isOscillating status with
  | None => Throw CommunicationFailure
  | Some b => Ok (if b then SWING_ENABLED else SWING_DISABLED)
  end.

(** One [this.service.updateCharacteristic(...)] call. *)
Inductive CharUpdate : Type :=
| UActive (v : ActiveValue)
| URotationSpeed (p : Z)
| USwingMode (v : SwingValue).

(** [updateCharacteristics(fanStatus)]: the updates made, in order, and
    whether it returned or threw (the updates before a throw are made). *)
Definition updateCharacteristics (fanStatus : FanStatus) : list CharUpdate * result unit :=
  let u1 := match isOn fanStatus with
            | Some b => [UActive (if b then ACTIVE else INACTIVE)]
            | None => []
            end in
  let u3 := match isOscillating fanStatus with
            | Some b => [USwingMode (if b then SWING_ENABLED else SWING_DISABLED)]
            | None => []
            end in
  match fanIntensity fanStatus with
  | None => ((u1 ++ u3)%list, Ok tt)
  | Some fi =>
      match fanIntensityToPercentage fi with
      | Ok p => ((u1 ++ URotationSpeed p :: u3)%list, Ok tt)
      | Throw e => (u1, Throw e)
      end
  end.

(** The [setInterval] callback once [poll()] has its snapshot: the updates
    made, how the callback ends, and the poller's new [previous]. *)
Definition pollTick (previous : option FanStatus) (current : FanStatus)
  : list CharUpdate * result unit * option FanStatus :=
  let '(state, previous') := poll_after previous current in
  match state with
  | Some st => let '(us, r) := updateCharacteristics st in (us, r, previous')
  | None => ([], Ok tt, previous')
  end.

End Accessory.

(* ------------------------------------------------------------------ *)
(** ** The earlier accessory ([src/src/platformAccessory.ts]) *)

Module AccessoryV1.

Definition setOn (value : bool) : list FanCommand := [FanPowerToggleCommand value].

Definition setIntensity (percentage : Z) : list FanCommand :=
  if Z.eqb percentage 0 then setOn false
  else let intensity := if Z.leb percentage 25 then "0"
                        else if Z.leb percentage 50 then "1"
                        else if Z.leb percentage 75 then "2" else "3" in
       [FanIntensityChangeCommand intensity].

(** [getIntensity()] after [await firstValueFrom(getDeviceStatus(...))]. *)
Definition getIntensity_after (status : FanStatus) : result Z :=
  match isOn status with
  | Some false => Ok 0%Z                     (* intensity is 0 if we're off *)
  | _ =>
      match fanIntensity status with
      | None => Throw CommunicationFailure
      | Some fi => Ok (match fi with L0 => 25 | L1 => 50 | L2 => 75 | _ => 100 end)%Z
      end
  end.

End AccessoryV1.

(* ------------------------------------------------------------------ *)
(** ** The coalescing status cache ([fanStatus$] of [src/unnamed/part_000])

    [requestedFanUpdate$.pipe(throttleTime(20), switchMap(() =>
      getDeviceStatus(queryId).pipe(catchError(...))),
      shareReplay({ bufferSize: 1, refCount: true }))],
    with every reader ([getActive], [getIntensity], [getSwingMode],
    [poller.poll]) doing [firstValueFrom(fanStatus$)] and then
    [requestedFanUpdate$.next()] in one synchronous step.

    Operator semantics (rxjs 7) as modelled:
    - [shareReplay] with [refCount: true]: the first subscriber creates the
      replay subject and subscribes the source; when the subscriber count
      drops to zero the source subscription (throttle state, switchMap inner)
      is dropped and the subject discarded.  Every subscriber is a
      [firstValueFrom], which unsubscribes on its first value, so a value
      emitted reaches all current subscribers and then resets the share: the
      replay buffer is never read.
    - [throttleTime(20)] (leading, no trailing): a value passes when no window
      is open and opens a window of 20 ms; values inside the window are
      dropped.
    - [switchMap]: a passing value unsubscribes the previous inner and
      subscribes [getDeviceStatus(queryId)]; a late reply of an unsubscribed
      inner is dropped.
    - [getDeviceStatus]: waits on [initializedWithTimeout$] (the replayed
      [true] of [initialized$], or a [TimeoutError] [apiConfig.timeout] ms
      after subscription), then calls [querySmarthomeDevices] once, and maps
      its reply through [parseDeviceResponse].
    - [catchError]: any error of the inner is logged and replaced by
      [{ connected: false }]. *)

Module Cache.

Definition throttle_ms : nat := 20.

(** The switchMap inner: waiting on the readiness gate since a time, or
    waiting for the reply of transport query number [q]. *)
Inductive Inner : Type :=
| IGate (subscribed_at : nat)
| IQuery (q : nat).

(** The live share: its subscribers, the throttle window, the inner. *)
Record Conn : Type := mkConn {
  waiters : list nat;
  window : option nat;
  inner : option Inner
}.

Record Cache : Type := mkCache {
  conn : option Conn;               (* [None]: no subscriber, nothing pending *)
  ready : bool;                     (* [initialized$] has emitted [true] *)
  fetches : nat;                    (* [getDeviceStatus] subscriptions started *)
  queries : nat;                    (* [querySmarthomeDevices] calls; ids 0, 1, ... *)
  resolved : list (nat * FanStatus);  (* promises of [firstValueFrom], in order *)
  diags : list Diag
}.

Inductive QueryOutcome : Type :=
| QErr                              (* callback called with [err != null] *)
| QRes (res : DeviceQueryResult).   (* callback called with [res] *)

Inductive Event : Type :=
| ERead (w : nat) (t : nat)         (* a reader [w] at time [t] *)
| EInitialized (t : nat)            (* [initialized$] emits [true] *)
| EReply (q : nat) (o : QueryOutcome) (t : nat)
| ETick (t : nat).                  (* time passes *)

(** [{ connected: false } as FanStatus] *)
Definition degraded : FanStatus := mkFanStatus (Some false) None None None None.

(** The value of the inner [getDeviceStatus(...).pipe(catchError(...))]
    once its query has answered. *)
Definition inner_value (o : QueryOutcome) : FanStatus * list Diag :=
  match o with
  | QErr => (degraded, [DStatusError QueryFailure])
  | QRes res =>
      let '(r, ds) := parseDeviceResponse res in
      match r with
      | Ok s => (s, ds)
      | Throw e => (degraded, ds ++ [DStatusError e])%list
      end
  end.

Definition with_conn (cn : option Conn) (c : Cache) : Cache :=
  mkCache cn (ready c) (fetches c) (queries c) (resolved c) (diags c).

(** The share emits [v]: every subscriber resolves, then the share resets. *)
Definition emit (v : FanStatus) (ds : list Diag) (c : Cache) : Cache :=
  match conn c with
  | None => c
  | Some cn =>
      mkCache None (ready c) (fetches c) (queries c)
        (resolved c ++ map (fun w => (w, v)) (waiters cn))%list (diags c ++ ds)%list
  end.

Section Machine.

(** [apiConfig.timeout] in milliseconds. *)
Variable api_timeout : nat.

(** Timers due by time [t]: the readiness gate's timeout. *)
Definition fire_timers (t : nat) (c : Cache) : Cache :=
  match conn c with
  | Some cn =>
      match inner cn with
      | Some (IGate t0) =>
          if Nat.leb (t0 + api_timeout) t then emit degraded [DStatusError TimeoutError] c else c
      | _ => c
      end
  | None => c
  end.

(** The throttle lets a value through at [t]: the window opens and switchMap
    subscribes a fresh [getDeviceStatus], replacing the previous inner. *)
Definition start_fetch (t : nat) (cn : Conn) (c : Cache) : Cache :=
  if ready c then
    mkCache (Some (mkConn (waiters cn) (Some t) (Some (IQuery (queries c)))))
      (ready c) (S (fetches c)) (S (queries c)) (resolved c) (diags c)
  else
    mkCache (Some (mkConn (waiters cn) (Some t) (Some (IGate t))))
      (ready c) (S (fetches c)) (queries c) (resolved c) (diags c).

(** [firstValueFrom(this.fanStatus$)] then [this.requestedFanUpdate$.next()]. *)
Definition read (w t : nat) (c : Cache) : Cache :=
  let cn := match conn c with
            | Some cn => mkConn (waiters cn ++ [w])%list (window cn) (inner cn)
            | None => mkConn [w] None None
            end in
  match window cn with
  | Some t0 => if Nat.ltb t (t0 + throttle_ms) then with_conn (Some cn) c else start_fetch t cn c
  | None => start_fetch t cn c
  end.

(** [initialized$] emits [true]: a gated inner calls the transport. *)
Definition initialized (c : Cache) : Cache :=
  match conn c with
  | Some cn =>
      match inner cn with
      | Some (IGate _) =>
          mkCache (Some (mkConn (waiters cn) (window cn) (Some (IQuery (queries c)))))
            true (fetches c) (S (queries c)) (resolved c) (diags c)
      | _ => mkCache (conn c) true (fetches c) (queries c) (resolved c) (diags c)
      end
  | None => mkCache (conn c) true (fetches c) (queries c) (resolved c) (diags c)
  end.

(** The callback of query [q]: only the current inner is still subscribed. *)
Definition reply (q : nat) (o : QueryOutcome) (c : Cache) : Cache :=
  match conn c with
  | Some cn =>
      match inner cn with
      | Some (IQuery q') =>
          if Nat.eqb q q' then let '(v, ds) := inner_value o in emit v ds c else c
      | _ => c
      end
  | None => c
  end.

Definition step (e : Event) (c : Cache) : Cache :=
  match e with
  | ERead w t => read w t (fire_timers t c)
  | EInitialized t => initialized (fire_timers t c)
  | EReply q o t => reply q o (fire_timers t c)
  | ETick t => fire_timers t c
  end.

Definition run (evs : list Event) (c : Cache) : Cache :=
  fold_left (fun c e => step e c) evs c.

End Machine.

(** The first value a reader's promise resolved to. *)
Fixpoint first_result (w : nat) (l : list (nat * FanStatus)) : option FanStatus :=
  match l with
  | [] => None
  | (w', v) :: r => if Nat.eqb w w' then Some v else first_result w r
  end.

Definition reads (rs : list (nat * nat)) : list Event :=
  map (fun p => ERead (fst p) (snd p)) rs.

Definition init_cache : Cache := mkCache None true 0 0 [] [].

End Cache.

(* ------------------------------------------------------------------ *)
(** ** What a decoded capability entry says about each field

    These read an entry the way the spec's dispatch table describes it; the
    theorems below relate them to [parseCapabilityStates]. *)

Definition ns_is (st : json) (n : string) : bool := js_is (js_get st "namespace") n.

Definition connected_entry (st : json) : option bool :=
  if ns_is st "Alexa.EndpointHealth"
  then Some (js_is (js_optchain (js_get st "value") "value") "OK") else None.

Definition isOn_entry (st : json) : option bool :=
  if ns_is st "Alexa.PowerController" && js_nonnull (js_get st "value")
  then Some (js_is (js_get st "value") "ON") else None.

Definition fanIntensity_entry (st : json) : option FanLevel :=
  if ns_is st "Alexa.ModeController" && js_is (js_get st "instance") "1"
  then intensity_value (js_get st "value") else None.

Definition isOscillating_entry (st : json) : option bool :=
  if ns_is st "Alexa.ToggleController" && js_is (js_get st "instance") "2"
     && js_nonnull (js_get st "value")
  then Some (js_is (js_get st "value") "ON") else None.

Definition shutdownTimer_entry (st : json) : option FanLevel :=
  if ns_is st "Alexa.ModeController" && js_is (js_get st "instance") "3"
  then timer_value (js_get st "value") else None.

(** The value set by the last entry that sets the field, if any. *)
Definition last_entry {A} (f : json -> option A) (init : option A) (l : list json) : option A :=
  fold_left (fun acc st => match f st with Some v => Some v | None => acc end) l init.

Definition is_none {A} (o : option A) : bool :=
  match o with None => true | Some _ => false end.

(** A ModeController intensity entry with a non-null value outside 0..3. *)
Definition bad_intensity_entry (st : json) : bool :=
  ns_is st "Alexa.ModeController" && js_is (js_get st "instance") "1"
  && js_nonnull (js_get st "value") && is_none (intensity_value (js_get st "value")).

(** A ModeController shutdown-timer entry with a non-null value outside 0..4. *)
Definition bad_timer_entry (st : json) : bool :=
  ns_is st "Alexa.ModeController" && js_is (js_get st "instance") "3"
  && js_nonnull (js_get st "value") && is_none (timer_value (js_get st "value")).

(* ------------------------------------------------------------------ *)
(** ** A batch of readers sharing one fetch

    Past the first [n] resolutions, the readers [W] either all still wait on
    the live share, or have all resolved to one value. *)

Definition batch_state (W : list nat) (n : nat) (c : Cache.Cache) : Prop :=
  (exists cn, Cache.conn c = Some cn /\ incl W (Cache.waiters cn) /\
     n <= length (Cache.resolved c) /\
     forall w, In w W -> Cache.first_result w (skipn n (Cache.resolved c)) = None) \/
  (exists v, n <= length (Cache.resolved c) /\
     forall w, In w W -> Cache.first_result w (skipn n (Cache.resolved c)) = Some v).

(** What every cache reached from an idle one satisfies: a live share has
    a reader; a gated inner means the API is not initialised yet; a query in
    flight was sent after initialisation and has an id below the counter. *)
Definition cache_wf (c : Cache.Cache) : Prop :=
  match Cache.conn c with
  | None => True
  | Some cn =>
      Cache.waiters cn <> [] /\
      match Cache.inner cn with
      | Some (Cache.IGate _) => Cache.ready c = false
      | Some (Cache.IQuery q) => Cache.ready c = true /\ q < Cache.queries c
      | None => False
      end
  end.

(** 1 while the live share's inner waits on the readiness gate. *)
Definition gated (c : Cache.Cache) : nat :=
  match Cache.conn c with
  | Some cn => match Cache.inner cn with Some (Cache.IGate _) => 1 | _ => 0 end
  | None => 0
  end.

(** The entries printed by [console.log(state)], in order. *)
Fixpoint logged_states (ds : list Diag) : list json :=
  match ds with
  | [] => []
  | DLogState st :: r => st :: logged_states r
  | _ :: r => logged_states r
  end.

(* ------------------------------------------------------------------ *)
(** ** Sample evaluations *)

Set Warnings "-abstract-large-number".

Example JSON_parse_power :
  JSON_parse (jtext "{'namespace':'Alexa.PowerController','value':'ON'}")
  = Ok (JObj [("namespace", JStr "Alexa.PowerController"); ("value", JStr "ON")]).
Proof. vm_compute. reflexivity. Qed.

Example JSON_parse_nested :
  JSON_parse (jtext " { 'a' : [1, -2.5e3, true, null], 'b': {'c': 'xA\n'} } ")
  = Ok (JObj [("a", JArr [JNum "1"; JNum "-2.5e3"; JBool true; JNull]);
              ("b", JObj [("c", JStr ("xA" ++ String (chr 10) EmptyString))])]).
Proof. vm_compute. reflexivity. Qed.

Example JSON_parse_bad : JSON_parse "{" = Throw SyntaxError.
Proof. vm_compute. reflexivity. Qed.

Example JSON_parse_bad2 : JSON_parse "01" = Throw SyntaxError.
Proof. vm_compute. reflexivity. Qed.

Example parseDeviceResponse_sample :
  fst (parseDeviceResponse (mkDeviceQueryResult
         (Some [mkDeviceState [power_on_text; intensity_2_text; osc_off_text] JNull]) (Some [])))
  = Ok (mkFanStatus None (Some true) (Some L2) (Some false) None).
Proof. vm_compute. reflexivity. Qed.

Example parseDeviceResponse_no_state :
  fst (parseDeviceResponse (mkDeviceQueryResult (Some []) None)) = Throw NoDeviceState.
Proof. reflexivity. Qed.

Example toFixed0_samples :
  map toFixed0 [0; 3; 10; 99; 120; -1]%Z = ["0"; "3"; "10"; "99"; "120"; "-1"].
Proof. reflexivity. Qed.

(** Three getters within 20 ms, then the reply: one fetch, one snapshot. *)
Example three_getters :
  let c := Cache.run 30000 (Cache.reads [(1, 100); (2, 105); (3, 119)]
                      ++ [Cache.EReply 0 (Cache.QRes (mkDeviceQueryResult
                            (Some [mkDeviceState [power_on_text] JNull]) None)) 400])%list
               Cache.init_cache in
  Cache.fetches c = 1 /\ Cache.queries c = 1 /\
  Cache.resolved c = [(1, set_isOn true empty_status); (2, set_isOn true empty_status);
                (3, set_isOn true empty_status)].
Proof. vm_compute. repeat split; reflexivity. Qed.

(** A read after the window switches to a second fetch; the first reply is
    then dropped and all readers get the second. *)
Example read_after_window :
  let c := Cache.run 30000 [Cache.ERead 1 100; Cache.ERead 2 130; Cache.EReply 0 Cache.QErr 140; Cache.EReply 1 Cache.QErr 150] Cache.init_cache in
  Cache.fetches c = 2 /\ Cache.resolved c = [(1, Cache.degraded); (2, Cache.degraded)].
Proof. vm_compute. split; reflexivity. Qed.

(* ------------------------------------------------------------------ *)
(** ** Command model *)

(** C9: each command serializes to the wire vocabulary: power on/off to
    [turnOn]/[turnOff] with no instance and no mode; an intensity change to
    [setModeValue] with instance ["1"] and the level's string as mode;
    oscillation on/off to [turnOnToggle]/[turnOffToggle] with instance ["2"]
    and no mode. *)
Theorem toObject_wire_vocabulary :
  toObject (FanPowerToggleCommand true) = mkWireAction "turnOn" None None /\
  toObject (FanPowerToggleCommand false) = mkWireAction "turnOff" None None /\
  (forall level : string,
     toObject (FanIntensityChangeCommand level) = mkWireAction "setModeValue" (Some "1") (Some level)) /\
  toObject (FanOscillationToggleCommand true) = mkWireAction "turnOnToggle" (Some "2") None /\
  toObject (FanOscillationToggleCommand false) = mkWireAction "turnOffToggle" (Some "2") None.
Proof. repeat split. Qed.

(* ------------------------------------------------------------------ *)
(** ** Accessory adapter: set intensity *)

Lemma div25_cases (p : Z) :
  (1 <= p <= 100)%Z ->
  (p <= 25 /\ (p - 1) / 25 = 0 \/ 25 < p <= 50 /\ (p - 1) / 25 = 1 \/
   50 < p <= 75 /\ (p - 1) / 25 = 2 \/ 75 < p /\ (p - 1) / 25 = 3)%Z.
Proof.
  intros Hp.
  pose proof (Z.div_mod (p - 1) 25 ltac:(lia)) as Hdm.
  pose proof (Z.mod_pos_bound (p - 1) 25 ltac:(lia)) as Hm.
  remember ((p - 1) / 25)%Z as k. remember ((p - 1) mod 25)%Z as r.
  assert (0 <= k <= 3)%Z by lia.
  lia.
Qed.

(** C8: for a percentage [p] in 1..100 the adapter sends exactly one
    [IntensityChange] whose level is [floor((p-1)/25)] clamped to 0..3, that
    is ["0"] for 1..25, ["1"] for 26..50, ["2"] for 51..75, ["3"] for 76..100. *)
Theorem setIntensity_level (p : Z) (Hp : (1 <= p <= 100)%Z) :
  Accessory.setIntensity p
  = [FanIntensityChangeCommand (toFixed0 (Z.min 3 (Z.max 0 ((p - 1) / 25))))] /\
  Accessory.setIntensity p
  = [FanIntensityChangeCommand (if Z.leb p 25 then "0" else if Z.leb p 50 then "1"
                                else if Z.leb p 75 then "2" else "3")].
Proof.
  unfold Accessory.setIntensity.
  replace (Z.eqb p 0) with false by (symmetry; apply Z.eqb_neq; lia).
  destruct (div25_cases p Hp) as [[H1 ->]|[[H1 ->]|[[H1 ->]|[H1 ->]]]];
    repeat match goal with
           | |- context [Z.leb ?a ?b] => destruct (Z.leb_spec a b); try lia
           end; split; reflexivity.
Qed.

Lemma setIntensity_witness :
  (1 <= 26 <= 100)%Z /\
  Accessory.setIntensity 26 = [FanIntensityChangeCommand (toFixed0 (Z.min 3 (Z.max 0 ((26 - 1) / 25))))] /\
  Accessory.setIntensity 26 = [FanIntensityChangeCommand "1"].
Proof.
  assert (Hp : (1 <= 26 <= 100)%Z) by lia.
  destruct (setIntensity_level 26 Hp) as [H1 H2].
  split; [exact Hp | split; [exact H1 | exact H2]].
Defined.



(* ------------------------------------------------------------------ *)
(** ** Poller *)

Lemma opt_neq_bool (a b : option bool) :
  (Accessory.opt_neq Bool.eqb a b = true <-> a <> b) /\
  (Accessory.opt_neq Bool.eqb a b = false <-> a = b).
Proof.
  destruct a as [[]|], b as [[]|]; simpl; split; split; intros; congruence.
Qed.

Lemma opt_neq_level (a b : option FanLevel) :
  (Accessory.opt_neq Accessory.level_eqb a b = true <-> a <> b) /\
  (Accessory.opt_neq Accessory.level_eqb a b = false <-> a = b).
Proof.
  destruct a as [[]|], b as [[]|]; simpl; split; split; intros; congruence.
Qed.

(** C2: [poll()] stores the fresh snapshot as [previous] in every case, and
    returns it exactly when there was no previous snapshot or one of [isOn],
    [fanIntensity], [isOscillating] differs from the previous one; otherwise
    it returns [null]. *)
Theorem poll_after_spec (previous : option FanStatus) (current : FanStatus) :
  snd (Accessory.poll_after previous current) = Some current /\
  (fst (Accessory.poll_after previous current) = Some current <->
     previous = None \/
     exists prev, previous = Some prev /\
       (isOn current <> isOn prev \/ fanIntensity current <> fanIntensity prev \/
        isOscillating current <> isOscillating prev)) /\
  (fst (Accessory.poll_after previous current) = None <->
     exists prev, previous = Some prev /\
       isOn current = isOn prev /\ fanIntensity current = fanIntensity prev /\
       isOscillating current = isOscillating prev).
Proof.
  unfold Accessory.poll_after.
  destruct previous as [prev|].
  - destruct (opt_neq_bool (isOn current) (isOn prev)) as [T1 F1].
    destruct (opt_neq_level (fanIntensity current) (fanIntensity prev)) as [T2 F2].
    destruct (opt_neq_bool (isOscillating current) (isOscillating prev)) as [T3 F3].
    destruct (Accessory.opt_neq Bool.eqb (isOn current) (isOn prev)) eqn:E1;
    destruct (Accessory.opt_neq Accessory.level_eqb (fanIntensity current) (fanIntensity prev)) eqn:E2;
    destruct (Accessory.opt_neq Bool.eqb (isOscillating current) (isOscillating prev)) eqn:E3;
    simpl; (split; [reflexivity|]); split; split; intros H;
    try discriminate;
    try (right; exists prev; split; [reflexivity|]; tauto);
    try (exists prev; split; [reflexivity|]; tauto);
    repeat match goal with
           | H : exists _, _ |- _ => destruct H as [? [H' ?]]; injection H' as <-
           | H : _ \/ _ |- _ => destruct H
           | H : None = Some _ |- _ => discriminate H
           end;
    try reflexivity; intuition congruence.
  - simpl; repeat split; intros H; try tauto; try discriminate;
      destruct H as [? [H _]]; discriminate.
Qed.

(* ------------------------------------------------------------------ *)
(** ** Status parser *)

Lemma js_is_true (x : option json) (a : string) : js_is x a = true -> x = Some (JStr a).
Proof.
  destruct x as [[]|]; simpl; try discriminate.
  intros H; apply String.eqb_eq in H; subst; reflexivity.
Qed.

Lemma js_nonnull_false (x : option json) : js_nonnull x = false -> x = None \/ x = Some JNull.
Proof. destruct x as [[]|]; simpl; auto; discriminate. Qed.

Ltac case_is e :=
  let E := fresh "E" in
  destruct e eqn:E; [apply js_is_true in E; subst; simpl | ].

(** The field update of one entry. *)
Lemma parse_entry_fields (st : json) (fs fs' : FanStatus) (ds : list Diag) :
  parse_entry st fs = Ok (fs', ds) ->
  connected fs' = match connected_entry st with Some v => Some v | None => connected fs end /\
  isOn fs' = match isOn_entry st with Some v => Some v | None => isOn fs end /\
  fanIntensity fs' = match fanIntensity_entry st with Some v => Some v | None => fanIntensity fs end /\
  isOscillating fs' = match isOscillating_entry st with Some v => Some v | None => isOscillating fs end /\
  shutdownTimer fs' = match shutdownTimer_entry st with Some v => Some v | None => shutdownTimer fs end.
Proof.
  unfold parse_entry, connected_entry, isOn_entry, fanIntensity_entry, isOscillating_entry,
    shutdownTimer_entry, ns_is, warn.
  remember (js_get st "namespace") as ns.
  remember (js_get st "instance") as inst.
  remember (js_get st "value") as val.
  clear Heqns Heqinst Heqval.
  destruct (js_nonnull val) eqn:N;
    [| apply js_nonnull_false in N; destruct N as [N|N]; subst val; simpl].
  all: case_is (js_is ns "Alexa.EndpointHealth");
       [ intros H; injection H as <- _; repeat split; reflexivity |].
  all: case_is (js_is ns "Alexa.PowerController");
       [ intros H; injection H as <- _; repeat split; reflexivity |].
  all: case_is (js_is ns "Alexa.ModeController").
  all: try (case_is (js_is inst "1");
       [ try (destruct (intensity_value val) eqn:IV);
         try (destruct (renders st)); intros H; try discriminate;
         injection H as <- _; repeat split; reflexivity |]).
  all: try (case_is (js_is inst "3");
       [ try (destruct (timer_value val) eqn:TV);
         try (destruct (renders st)); intros H; try discriminate;
         injection H as <- _; repeat split; reflexivity |]).
  all: try (case_is (js_is ns "Alexa.ToggleController")).
  all: try (case_is (js_is inst "2")).
  all: simpl; try (destruct (renders st)); intros H; try discriminate;
       injection H as <- _; repeat split; reflexivity.
Qed.

Lemma parse_state_ok (st : json) (fs : FanStatus) (r : FanStatus * list Diag) :
  parse_state st fs = Ok r -> parse_entry st fs = Ok r.
Proof. destruct st; simpl; congruence. Qed.

Lemma parse_loop_fields (states : list json) (fs s : FanStatus) (log log' : list Diag) :
  parse_loop states fs log = (Ok s, log') ->
  connected s = last_entry connected_entry (connected fs) states /\
  isOn s = last_entry isOn_entry (isOn fs) states /\
  fanIntensity s = last_entry fanIntensity_entry (fanIntensity fs) states /\
  isOscillating s = last_entry isOscillating_entry (isOscillating fs) states /\
  shutdownTimer s = last_entry shutdownTimer_entry (shutdownTimer fs) states.
Proof.
  revert fs log.
  induction states as [|st rest IH]; intros fs log H; simpl in H.
  - injection H as <- _. repeat split.
  - destruct (parse_state st fs) as [[fs1 ds]|e] eqn:E; [|discriminate].
    apply parse_state_ok, parse_entry_fields in E.
    destruct E as (E1 & E2 & E3 & E4 & E5).
    destruct (IH fs1 _ H) as (F1 & F2 & F3 & F4 & F5).
    simpl. rewrite <- E1, <- E2, <- E3, <- E4, <- E5. auto.
Qed.

Lemma last_entry_inv {A} (P : A -> Prop) (f : json -> option A) (init : option A) (l : list json) :
  (forall st v, f st = Some v -> P v) ->
  (forall v, init = Some v -> P v) ->
  forall v, last_entry f init l = Some v -> P v.
Proof.
  revert init; induction l as [|st rest IH]; intros init Hf Hi v; simpl; [apply Hi|].
  apply IH; [exact Hf|]. intros w Hw.
  destruct (f st) eqn:E; [injection Hw as <-; eapply Hf; eauto | auto].
Qed.

Lemma parse_loop_app (pre post : list json) (fs : FanStatus) (log : list Diag) :
  parse_loop (pre ++ post) fs log =
  match parse_loop pre fs log with
  | (Ok fs', log') => parse_loop post fs' log'
  | (Throw e, log') => (Throw e, log')
  end.
Proof.
  revert fs log; induction pre as [|st rest IH]; intros fs log; simpl; [reflexivity|].
  destruct (parse_state st fs) as [[fs1 ds]|e]; [apply IH | reflexivity].
Qed.

Lemma parse_loop_fst_log (l : list json) (fs : FanStatus) (log1 log2 : list Diag) :
  fst (parse_loop l fs log1) = fst (parse_loop l fs log2).
Proof.
  revert fs log1 log2; induction l as [|st rest IH]; intros fs log1 log2; simpl; [reflexivity|].
  destruct (parse_state st fs) as [[fs1 ds]|e]; [apply IH | reflexivity].
Qed.

Lemma ns_is_not_null (st : json) (n : string) : ns_is st n = true -> st <> JNull.
Proof. unfold ns_is; destruct st; simpl; intros H; try discriminate; congruence. Qed.

Lemma bad_intensity_entry_throws (st : json) (fs : FanStatus) :
  bad_intensity_entry st = true ->
  parse_state st fs = Throw (if renders st then UnsupportedIntensity else TypeError).
Proof.
  unfold bad_intensity_entry. intros H.
  apply andb_true_iff in H as [H HN]. apply andb_true_iff in H as [H HV].
  apply andb_true_iff in H as [HM HI].
  assert (parse_state st fs = parse_entry st fs) as ->
    by (destruct st; [apply ns_is_not_null in HM; congruence | ..]; reflexivity).
  unfold parse_entry, ns_is in *.
  apply js_is_true in HM, HI. rewrite HM, HI, HV. simpl.
  destruct (intensity_value (js_get st "value")); [discriminate|].
  destruct (renders st); reflexivity.
Qed.

Lemma bad_timer_entry_state (st : json) (fs : FanStatus) :
  bad_timer_entry st = true ->
  parse_state st fs = if renders st then Ok (fs, [DWarnTimer]) else Throw TypeError.
Proof.
  unfold bad_timer_entry. intros H.
  apply andb_true_iff in H as [H HN]. apply andb_true_iff in H as [H HV].
  apply andb_true_iff in H as [HM HI].
  assert (parse_state st fs = parse_entry st fs) as ->
    by (destruct st; [apply ns_is_not_null in HM; congruence | ..]; reflexivity).
  unfold parse_entry, warn, ns_is in *.
  apply js_is_true in HM, HI. rewrite HM, HI, HV. simpl.
  destruct (timer_value (js_get st "value")); [discriminate|].
  reflexivity.
Qed.

(** C10: a status produced by the parser never has [fanIntensity = '4'],
    so [getIntensity] on it, when [fanIntensity] is set, returns one of 25,
    50, 75, 100 and never reaches [fanIntensityToPercentage]'s throwing
    default branch. *)
Theorem parsed_intensity_in_range (states : list json) (s : FanStatus)
  (H : fst (parseCapabilityStates states) = Ok s) :
  fanIntensity s <> Some L4 /\
  match fanIntensity s with
  | None => True
  | Some _ => exists pct, Accessory.getIntensity_after s = Ok pct /\ In pct [25; 50; 75; 100]%Z
  end.
Proof.
  unfold parseCapabilityStates in H.
  destruct (parse_loop states empty_status []) as [r log] eqn:E; simpl in H; subst r.
  destruct (parse_loop_fields _ _ _ _ _ E) as (_ & _ & F & _ & _).
  assert (Hne : forall v, fanIntensity s = Some v -> v <> L4).
  { rewrite F. apply last_entry_inv; [|simpl; discriminate].
    unfold fanIntensity_entry, intensity_value. intros st v Hv.
    destruct (_ && _); [|discriminate].
    repeat match goal with
           | Hv : (if ?b then _ else _) = Some _ |- _ => destruct b
           end; try discriminate; injection Hv as <-; discriminate. }
  split.
  - intros Hs. exact (Hne L4 Hs eq_refl).
  - unfold Accessory.getIntensity_after.
    destruct (fanIntensity s) as [v|] eqn:Hv; [|exact I].
    specialize (Hne v eq_refl).
    destruct v; [ exists 25%Z | exists 50%Z | exists 75%Z | exists 100%Z | contradiction ];
      simpl; auto 6.
Qed.

Lemma parsed_intensity_witness :
  fst (parseCapabilityStates [JObj [("namespace", JStr "Alexa.ModeController");
                                   ("instance", JStr "1"); ("value", JStr "2")]])
  = Ok (set_fanIntensity L2 empty_status) /\
  set_fanIntensity L2 empty_status <> set_fanIntensity L4 empty_status /\
  Accessory.getIntensity_after (set_fanIntensity L2 empty_status) = Ok 75%Z.
Proof.
  assert (H : fst (parseCapabilityStates [JObj [("namespace", JStr "Alexa.ModeController");
                                   ("instance", JStr "1"); ("value", JStr "2")]])
              = Ok (set_fanIntensity L2 empty_status)) by reflexivity.
  pose proof (parsed_intensity_in_range _ _ H) as [_ _].
  split; [exact H | split; [discriminate | reflexivity]].
Defined.

(** C6 (as stated: a malformed entry never sets [connected], [isOn] or
    [isOscillating]) fails: an EndpointHealth entry without a value sets
    [connected = false], and a PowerController entry whose value is neither
    ["ON"] nor ["OFF"] sets [isOn = false]. *)
Lemma malformed_entries_set_fields_cex :
  fst (parseDeviceResponse (mkDeviceQueryResult
        (Some [mkDeviceState
                 [(jtext "{'namespace':'Alexa.EndpointHealth'}");
                  (jtext "{'namespace':'Alexa.PowerController','value':'BOGUS'}")] JNull]) None))
  = Ok (mkFanStatus (Some false) (Some false) None None None).
Proof. vm_compute. reflexivity. Qed.

(** C6 (amended): each field of a parsed status is the value given by the
    last entry that sets it, and [None] when no entry does: [connected] is
    set by every EndpointHealth entry (to whether [value.value] is ["OK"]);
    [isOn] by every PowerController entry with a non-null value (to whether
    it is ["ON"]); [isOscillating] by every ToggleController entry of
    instance ["2"] with a non-null value (to whether it is ["ON"]);
    [fanIntensity] only to a recognized level 0..3 by ModeController entries
    of instance ["1"]; [shutdownTimer] only to a recognized level 0..4 by
    ModeController entries of instance ["3"].  No other entry sets a field. *)
Theorem parse_fields_from_entries (states : list json) (s : FanStatus)
  (H : fst (parseCapabilityStates states) = Ok s) :
  connected s = last_entry connected_entry None states /\
  isOn s = last_entry isOn_entry None states /\
  fanIntensity s = last_entry fanIntensity_entry None states /\
  isOscillating s = last_entry isOscillating_entry None states /\
  shutdownTimer s = last_entry shutdownTimer_entry None states.
Proof.
  unfold parseCapabilityStates in H.
  destruct (parse_loop states empty_status []) as [r log] eqn:E; simpl in H; subst r.
  exact (parse_loop_fields _ _ _ _ _ E).
Qed.

Lemma parse_fields_witness :
  fst (parseCapabilityStates [JObj [("namespace", JStr "Alexa.EndpointHealth")];
                              JObj [("namespace", JStr "Alexa.PowerController"); ("value", JStr "ON")]])
  = Ok (mkFanStatus (Some false) (Some true) None None None) /\
  connected (mkFanStatus (Some false) (Some true) None None None)
  = last_entry connected_entry None
      [JObj [("namespace", JStr "Alexa.EndpointHealth")];
       JObj [("namespace", JStr "Alexa.PowerController"); ("value", JStr "ON")]].
Proof.
  assert (H : fst (parseCapabilityStates
                     [JObj [("namespace", JStr "Alexa.EndpointHealth")];
                      JObj [("namespace", JStr "Alexa.PowerController"); ("value", JStr "ON")]])
              = Ok (mkFanStatus (Some false) (Some true) None None None)) by reflexivity.
  split; [exact H | exact (proj1 (parse_fields_from_entries _ _ H))].
Defined.

(** A shutdown-timer entry with an unsupported value that also carries a
    ["toString"] member. *)
Definition timer_9_toString_text :=
  (jtext "{'namespace':'Alexa.ModeController','instance':'3','value':'9','toString':'x'}").

(** C4 (as stated: an unsupported shutdown-timer value is only logged and
    skipped, the parse succeeding) fails when the entry has a ["toString"]
    member: the warning's template literal throws a [TypeError] and the
    parse fails. *)
Lemma timer_entry_toString_cex :
  map_parse [timer_9_toString_text]
  = Ok [JObj [("namespace", JStr "Alexa.ModeController"); ("instance", JStr "3");
              ("value", JStr "9"); ("toString", JStr "x")]] /\
  bad_timer_entry (JObj [("namespace", JStr "Alexa.ModeController"); ("instance", JStr "3");
                         ("value", JStr "9"); ("toString", JStr "x")]) = true /\
  fst (parseDeviceResponse (mkDeviceQueryResult
        (Some [mkDeviceState [timer_9_toString_text] JNull]) None)) = Throw TypeError.
Proof. vm_compute. repeat split. Qed.

(** C4: an intensity entry (ModeController, instance ["1"]) with a non-null
    value outside 0..3 always makes the parse fail.  After entries that
    parse, the failure is [UnsupportedIntensity], or a [TypeError] from the
    error message's template when the entry has a ["toString"] member; the
    entry has been logged with [console.log].  A shutdown-timer entry
    (ModeController, instance ["3"]) with a non-null value outside 0..4 is
    logged, warned about and skipped: the parse continues from the status
    built so far, and gives exactly what it gives without that entry.  The
    exception is an entry with a ["toString"] member, whose warning template
    throws a [TypeError]. *)
Theorem mode_entries_hard_and_soft (pre post : list json) (st : json) :
  (bad_intensity_entry st = true ->
     exists e, fst (parseCapabilityStates (pre ++ st :: post)%list) = Throw e) /\
  (forall s0 log0, parseCapabilityStates pre = (Ok s0, log0) ->
     (bad_intensity_entry st = true ->
        parseCapabilityStates (pre ++ st :: post)%list
        = (Throw (if renders st then UnsupportedIntensity else TypeError),
           (log0 ++ [DLogState st])%list)) /\
     (bad_timer_entry st = true ->
        parseCapabilityStates (pre ++ st :: post)%list
        = if renders st then parse_loop post s0 (log0 ++ [DLogState st; DWarnTimer])%list
          else (Throw TypeError, (log0 ++ [DLogState st])%list))) /\
  (bad_timer_entry st = true -> renders st = true ->
     fst (parseCapabilityStates (pre ++ st :: post)%list) = fst (parseCapabilityStates (pre ++ post)%list)).
Proof.
  unfold parseCapabilityStates. rewrite !parse_loop_app.
  split; [|split].
  - intros Hbad.
    destruct (parse_loop pre empty_status []) as [[s0|e] log0]; simpl.
    + rewrite (bad_intensity_entry_throws st s0 Hbad). eexists; reflexivity.
    + eexists; reflexivity.
  - intros s0 log0 Hpre. rewrite Hpre. simpl. split.
    + intros Hbad. rewrite (bad_intensity_entry_throws st s0 Hbad). reflexivity.
    + intros Hbad. rewrite (bad_timer_entry_state st s0 Hbad).
      destruct (renders st); [rewrite <- app_assoc|]; reflexivity.
  - intros Hbad HR.
    destruct (parse_loop pre empty_status []) as [[s0|e] log0]; [|reflexivity].
    simpl. rewrite (bad_timer_entry_state st s0 Hbad), HR.
    apply parse_loop_fst_log.
Qed.

Lemma mode_entries_witness :
  parseCapabilityStates [JObj [("namespace", JStr "Alexa.EndpointHealth")]]
  = (Ok (set_connected false empty_status),
     [DLogState (JObj [("namespace", JStr "Alexa.EndpointHealth")])]) /\
  bad_timer_entry (JObj [("namespace", JStr "Alexa.ModeController"); ("instance", JStr "3");
                         ("value", JStr "9")]) = true /\
  parseCapabilityStates
    ([JObj [("namespace", JStr "Alexa.EndpointHealth")]] ++
     JObj [("namespace", JStr "Alexa.ModeController"); ("instance", JStr "3"); ("value", JStr "9")]
     :: [JObj [("namespace", JStr "Alexa.PowerController"); ("value", JStr "ON")]])%list
  = parse_loop [JObj [("namespace", JStr "Alexa.PowerController"); ("value", JStr "ON")]]
      (set_connected false empty_status)
      ([DLogState (JObj [("namespace", JStr "Alexa.EndpointHealth")])] ++
       [DLogState (JObj [("namespace", JStr "Alexa.ModeController"); ("instance", JStr "3");
                         ("value", JStr "9")]); DWarnTimer])%list.
Proof.
  split; [reflexivity|]. split; [reflexivity|].
  exact (proj2 (proj1 (proj2 (mode_entries_hard_and_soft
           [JObj [("namespace", JStr "Alexa.EndpointHealth")]]
           [JObj [("namespace", JStr "Alexa.PowerController"); ("value", JStr "ON")]]
           (JObj [("namespace", JStr "Alexa.ModeController"); ("instance", JStr "3");
                  ("value", JStr "9")])))
           (set_connected false empty_status)
           [DLogState (JObj [("namespace", JStr "Alexa.EndpointHealth")])] eq_refl) eq_refl).
Defined.

(* ------------------------------------------------------------------ *)
(** ** Decoding the raw capability states *)

Lemma lex_error_is_syntax (t : string) (e : JsError) : JSON_parse t = Throw e -> e = SyntaxError.
Proof.
  unfold JSON_parse.
  destruct (pvalue _ _) as [[v rest]|]; [destruct (skip_ws rest)|]; congruence.
Qed.

Lemma map_parse_fails (l : list string) :
  (exists t, In t l /\ exists e, JSON_parse t = Throw e) -> map_parse l = Throw SyntaxError.
Proof.
  induction l as [|t0 rest IH]; intros [t [Hin [e He]]]; [destruct Hin|].
  simpl. destruct (JSON_parse t0) as [v|e0] eqn:E0.
  - destruct Hin as [<-|Hin]; [congruence|].
    rewrite IH by eauto. reflexivity.
  - apply lex_error_is_syntax in E0. subst. reflexivity.
Qed.

(** C5 (as stated: a decode failure of one entry does not abort the
    others) fails: a malformed first entry aborts the whole response, even
    though the other entry decodes and alone parses to [isOn = true]. *)
Lemma decode_failure_cex :
  fst (parseDeviceResponse (mkDeviceQueryResult
        (Some [mkDeviceState ["{"; power_on_text] JNull]) None)) = Throw SyntaxError /\
  fst (parseDeviceResponse (mkDeviceQueryResult
        (Some [mkDeviceState [power_on_text] JNull]) None)) = Ok (set_isOn true empty_status).
Proof. vm_compute. split; reflexivity. Qed.

(** C5 (amended): the raw capability states are decoded all together before
    any is interpreted; a decode failure of any one of them aborts the parse
    of the whole response with the decode error, and no [FanStatus] is
    produced from the other entries. *)
Theorem decode_failure_aborts (res : DeviceQueryResult) (d : DeviceState)
  (rest : list DeviceState) (t : string)
  (Hd : deviceStates res = Some (d :: rest))
  (Ht : In t (capabilityStates d))
  (Hbad : exists e, JSON_parse t = Throw e) :
  fst (parseDeviceResponse res) = Throw SyntaxError.
Proof.
  unfold parseDeviceResponse. rewrite Hd.
  rewrite (map_parse_fails (capabilityStates d)) by eauto.
  reflexivity.
Qed.

Lemma decode_failure_witness :
  In "{" (capabilityStates (mkDeviceState ["{"; power_on_text] JNull)) /\
  fst (parseDeviceResponse (mkDeviceQueryResult
        (Some [mkDeviceState ["{"; power_on_text] JNull]) None)) = Throw SyntaxError.
Proof.
  assert (Ht : In "{" (capabilityStates (mkDeviceState ["{"; power_on_text] JNull)))
    by (simpl; auto).
  split; [exact Ht|].
  apply (decode_failure_aborts
           (mkDeviceQueryResult (Some [mkDeviceState ["{"; power_on_text] JNull]) None)
           (mkDeviceState ["{"; power_on_text] JNull) [] "{" eq_refl Ht).
  exists SyntaxError. vm_compute. reflexivity.
Defined.

(* ------------------------------------------------------------------ *)
(** ** Coalescing status cache *)

Import Cache.

Lemma emit_some (v : FanStatus) (ds : list Diag) (c : Cache) (cn : Conn) :
  conn c = Some cn ->
  conn (emit v ds c) = None /\
  resolved (emit v ds c) = (resolved c ++ map (fun w => (w, v)) (waiters cn))%list.
Proof. intros H; unfold emit; rewrite H; split; reflexivity. Qed.

Lemma emit_none (v : FanStatus) (ds : list Diag) (c : Cache) :
  conn c = None -> emit v ds c = c.
Proof. intros H; unfold emit; rewrite H; reflexivity. Qed.

Lemma fire_timers_cases (T t : nat) (c : Cache) :
  fire_timers T t c = c \/ fire_timers T t c = emit degraded [DStatusError TimeoutError] c.
Proof.
  unfold fire_timers.
  destruct (conn c) as [cn|]; [|auto].
  destruct (inner cn) as [[t0|q]|]; auto.
  destruct (Nat.leb (t0 + T) t); auto.
Qed.

Lemma read_some (w t : nat) (c : Cache) (cn : Conn) :
  conn c = Some cn ->
  exists cn', conn (read w t c) = Some cn' /\ incl (waiters cn) (waiters cn') /\
              resolved (read w t c) = resolved c.
Proof.
  intros H. unfold read, start_fetch, with_conn. rewrite H. simpl.
  assert (Hi : incl (waiters cn) (waiters cn ++ [w])%list) by (intros x Hx; apply in_or_app; auto).
  destruct (window cn) as [t0|]; [destruct (Nat.ltb t (t0 + throttle_ms))|];
    try destruct (ready c); simpl; eexists; repeat split; eauto.
Qed.

Lemma read_resolved (w t : nat) (c : Cache) : resolved (read w t c) = resolved c.
Proof.
  unfold read, start_fetch, with_conn.
  destruct (conn c); simpl;
    [destruct (window _) as [t0|]; [destruct (Nat.ltb t (t0 + throttle_ms))|]|];
    try destruct (ready c); reflexivity.
Qed.

Lemma initialized_keeps (c : Cache) :
  resolved (initialized c) = resolved c /\
  forall cn, conn c = Some cn ->
    exists cn', conn (initialized c) = Some cn' /\ waiters cn' = waiters cn.
Proof.
  unfold initialized. split.
  - destruct (conn c) as [cn|]; [destruct (inner cn) as [[]|]|]; reflexivity.
  - intros cn H; rewrite H. destruct (inner cn) as [[]|]; simpl; eexists; rewrite ?H; split; reflexivity.
Qed.

Lemma reply_cases (q : nat) (o : QueryOutcome) (c : Cache) :
  reply q o c = c \/ reply q o c = emit (fst (inner_value o)) (snd (inner_value o)) c.
Proof.
  unfold reply.
  destruct (conn c) as [cn|]; [|auto].
  destruct (inner cn) as [[t0|q']|]; auto.
  destruct (Nat.eqb q q'); auto.
  destruct (inner_value o); auto.
Qed.

(** Resolved promises are only ever appended. *)
Lemma step_resolved_app (T : nat) (e : Event) (c : Cache) :
  exists l, resolved (step T e c) = (resolved c ++ l)%list.
Proof.
  assert (Hem : forall v ds c', exists l, resolved (emit v ds c') = (resolved c' ++ l)%list).
  { intros v ds c'. unfold emit. destruct (conn c'); eexists; [reflexivity|].
    rewrite app_nil_r; reflexivity. }
  assert (Hft : forall t, exists l, resolved (fire_timers T t c) = (resolved c ++ l)%list).
  { intros t. destruct (fire_timers_cases T t c) as [-> | ->]; [exists []; rewrite app_nil_r; reflexivity | apply Hem]. }
  destruct e as [w t|t|q o t|t]; simpl.
  - destruct (Hft t) as [l Hl]. rewrite read_resolved. eauto.
  - destruct (Hft t) as [l Hl]. rewrite (proj1 (initialized_keeps _)). eauto.
  - destruct (Hft t) as [l Hl].
    destruct (reply_cases q o (fire_timers T t c)) as [-> | ->]; [eauto|].
    destruct (Hem (fst (inner_value o)) (snd (inner_value o)) (fire_timers T t c)) as [l' Hl'].
    rewrite Hl', Hl, <- app_assoc. eauto.
  - apply Hft.
Qed.

(** From a live share, one step either keeps every subscriber waiting or
    resolves all of them with one value. *)
Lemma step_conn (T : nat) (e : Event) (c : Cache) (cn : Conn) :
  conn c = Some cn ->
  (exists cn', conn (step T e c) = Some cn' /\ incl (waiters cn) (waiters cn') /\
               resolved (step T e c) = resolved c) \/
  (exists v, resolved (step T e c) = (resolved c ++ map (fun w => (w, v)) (waiters cn))%list).
Proof.
  intros Hc.
  destruct e as [w t|t|q o t|t]; simpl;
    destruct (fire_timers_cases T t c) as [Hf | Hf]; rewrite Hf;
    try (destruct (emit_some degraded [DStatusError TimeoutError] c cn Hc) as [Hn Hr]).
  - left. exact (read_some w t c cn Hc).
  - right. exists degraded. rewrite read_resolved. exact Hr.
  - left. destruct (initialized_keeps c) as [Hr0 Hw].
    destruct (Hw cn Hc) as [cn' [H1 H2]]. exists cn'. rewrite H2.
    repeat split; [exact H1 | intros x; auto | exact Hr0].
  - right. exists degraded. rewrite (proj1 (initialized_keeps _)). exact Hr.
  - destruct (reply_cases q o c) as [-> | ->].
    + left. exists cn. repeat split; [exact Hc | intros x; auto].
    + right. exists (fst (inner_value o)). exact (proj2 (emit_some _ _ c cn Hc)).
  - right. exists degraded.
    destruct (reply_cases q o (emit degraded [DStatusError TimeoutError] c)) as [-> | ->]; [exact Hr|].
    rewrite emit_none by exact Hn. exact Hr.
  - left. exists cn. repeat split; [exact Hc | intros x; auto].
  - right. exists degraded. exact Hr.
Qed.

Lemma first_result_app_some (w : nat) (v : FanStatus) (l l' : list (nat * FanStatus)) :
  first_result w l = Some v -> first_result w (l ++ l')%list = Some v.
Proof.
  induction l as [|[w' v'] l IH]; simpl; [discriminate|].
  destruct (Nat.eqb w w'); auto.
Qed.

Lemma first_result_app_none (w : nat) (l l' : list (nat * FanStatus)) :
  first_result w l = None -> first_result w (l ++ l')%list = first_result w l'.
Proof.
  induction l as [|[w' v'] l IH]; simpl; [auto|].
  destruct (Nat.eqb w w'); [discriminate | auto].
Qed.

Lemma first_result_map (w : nat) (v : FanStatus) (ws : list nat) :
  In w ws -> first_result w (map (fun w => (w, v)) ws) = Some v.
Proof.
  induction ws as [|w' ws IH]; simpl; [tauto|].
  intros [<-|H]; [rewrite Nat.eqb_refl; reflexivity|].
  destruct (Nat.eqb w w'); auto.
Qed.

Lemma skipn_app_le {A} (n : nat) (l l' : list A) :
  n <= length l -> skipn n (l ++ l')%list = (skipn n l ++ l')%list.
Proof.
  intros H. rewrite skipn_app. replace (n - length l) with 0 by lia. reflexivity.
Qed.

Lemma batch_state_step (T : nat) (W : list nat) (n : nat) (e : Event) (c : Cache) :
  batch_state W n c -> batch_state W n (step T e c).
Proof.
  intros [[cn [Hc [Hin [Hn Hw]]]] | [v [Hn Hw]]].
  - destruct (step_conn T e c cn Hc) as [[cn' [Hc' [Hi Hr]]] | [v Hr]].
    + left. exists cn'. rewrite Hr. repeat split; auto.
      intros x Hx; apply Hi, Hin, Hx.
    + right. exists v. rewrite Hr, length_app. split; [lia|].
      intros w Hx. rewrite skipn_app_le by exact Hn.
      rewrite first_result_app_none by (apply Hw, Hx).
      apply first_result_map, Hin, Hx.
  - right. exists v. destruct (step_resolved_app T e c) as [l Hl].
    rewrite Hl, length_app. split; [lia|].
    intros w Hx. rewrite skipn_app_le by exact Hn.
    apply first_result_app_some, Hw, Hx.
Qed.

Lemma batch_state_run (T : nat) (W : list nat) (n : nat) (evs : list Event) :
  forall c, batch_state W n c -> batch_state W n (run T evs c).
Proof.
  induction evs as [|e evs IH]; intros c H; [exact H|].
  unfold run; simpl. apply IH, batch_state_step, H.
Qed.

(** Reads inside an open throttle window only join the live share. *)
Lemma reads_in_window (T : nat) (rs : list (nat * nat)) :
  forall ws t1 i c,
  throttle_ms <= T ->
  Cache.conn c = Some (mkConn ws (Some t1) (Some i)) ->
  (i = IGate t1 \/ exists q, i = IQuery q) ->
  (forall p, In p rs -> snd p < t1 + throttle_ms) ->
  run T (reads rs) c = with_conn (Some (mkConn (ws ++ map fst rs)%list (Some t1) (Some i))) c.
Proof.
  induction rs as [|[w t] rs IH]; intros ws t1 i c HT Hc Hi Hr.
  - simpl. rewrite app_nil_r, <- Hc. destruct c; reflexivity.
  - unfold run; simpl.
    assert (Ht : t < t1 + throttle_ms) by exact (Hr (w, t) (or_introl eq_refl)).
    assert (Hf : fire_timers T t c = c).
    { unfold fire_timers. rewrite Hc; simpl.
      destruct Hi as [-> | [q ->]]; [|reflexivity].
      replace (Nat.leb (t1 + T) t) with false; [reflexivity|].
      symmetry; apply Nat.leb_gt. unfold throttle_ms in *; lia. }
    rewrite Hf. unfold read at 1. rewrite Hc; simpl.
    replace (Nat.ltb t (t1 + throttle_ms)) with true by (symmetry; apply Nat.ltb_lt; exact Ht).
    fold (run T (reads rs) (with_conn (Some (mkConn (ws ++ [w])%list (Some t1) (Some i))) c)).
    rewrite (IH (ws ++ [w])%list t1 i) by (auto; intros p Hp; apply Hr; right; exact Hp).
    rewrite <- app_assoc. reflexivity.
Qed.

(** The first read of an idle cache opens the window and starts one fetch. *)
Lemma first_read_batch (T : nat) (c0 : Cache) (w1 t1 : nat) (rest : list (nat * nat)) :
  throttle_ms <= T ->
  Cache.conn c0 = None ->
  (forall p, In p rest -> snd p < t1 + throttle_ms) ->
  run T (reads ((w1, t1) :: rest)) c0 =
  mkCache (Some (mkConn (w1 :: map fst rest) (Some t1)
                   (Some (if ready c0 then IQuery (queries c0) else IGate t1))))
    (ready c0) (S (fetches c0)) (if ready c0 then S (queries c0) else queries c0)
    (resolved c0) (diags c0).
Proof.
  intros HT Hc Hr. unfold run; simpl.
  assert (Hf : fire_timers T t1 c0 = c0) by (unfold fire_timers; rewrite Hc; reflexivity).
  rewrite Hf. unfold read at 1. rewrite Hc; simpl.
  fold (run T (reads rest) (start_fetch t1 (mkConn [w1] None None) c0)).
  unfold start_fetch; destruct (ready c0) eqn:Hready.
  - rewrite (reads_in_window T rest [w1] t1 (IQuery (queries c0))) by (simpl; eauto).
    reflexivity.
  - rewrite (reads_in_window T rest [w1] t1 (IGate t1)) by (simpl; eauto).
    reflexivity.
Qed.

(** C1: reads issued while no fetch is pending ([conn c0 = None]) and within
    one throttle window of the first read start exactly one [getDeviceStatus]
    fetch (one transport query, sent at once when the API is initialised,
    otherwise once the readiness gate opens), leave every reader waiting on
    the same share, and, whatever happens next, no two of these readers ever
    resolve to different snapshots; when the API is ready, the reply to that
    query resolves all of them with its one value. *)
Theorem coalesced_reads (T : nat) (c0 : Cache) (w1 t1 : nat) (rest : list (nat * nat))
  (HT : throttle_ms <= T)
  (Hidle : Cache.conn c0 = None)
  (Hwin : forall p, In p rest -> snd p < t1 + throttle_ms) :
  let c1 := run T (reads ((w1, t1) :: rest)) c0 in
  let ws := w1 :: map fst rest in
  fetches c1 = S (fetches c0) /\
  queries c1 = (if ready c0 then S (queries c0) else queries c0) /\
  resolved c1 = resolved c0 /\
  (exists cn, Cache.conn c1 = Some cn /\ waiters cn = ws) /\
  (forall evs w w' v, In w ws -> In w' ws ->
     first_result w (skipn (length (resolved c1)) (resolved (run T evs c1))) = Some v ->
     first_result w' (skipn (length (resolved c1)) (resolved (run T evs c1))) = Some v) /\
  (ready c0 = true -> forall o t,
     resolved (step T (EReply (queries c0) o t) c1) =
     (resolved c1 ++ map (fun w => (w, fst (inner_value o))) ws)%list).
Proof.
  cbv zeta. rewrite (first_read_batch T c0 w1 t1 rest HT Hidle Hwin). simpl.
  repeat split.
  - eexists; split; reflexivity.
  - intros evs w w' v Hw Hw' H.
    set (c1 := mkCache _ _ _ _ _ _) in H |- *.
    assert (Hb : batch_state (w1 :: map fst rest) (length (resolved c0)) c1).
    { left. eexists. split; [reflexivity|]. simpl. repeat split.
      - intros x Hx; exact Hx.
      - lia.
      - intros x _. rewrite skipn_all. reflexivity. }
    destruct (batch_state_run T _ _ evs c1 Hb) as [[cn [_ [_ [_ Hn]]]] | [v' [_ Hs]]].
    + rewrite Hn in H by exact Hw. discriminate.
    + rewrite Hs in H by exact Hw. rewrite Hs by exact Hw'. exact H.
  - intros Hr o t. rewrite Hr. simpl.
    unfold reply; simpl. rewrite Nat.eqb_refl.
    destruct (inner_value o) as [v ds]. reflexivity.
Qed.

Lemma coalesced_reads_witness :
  fetches (run 30000 (reads [(1, 100); (2, 105); (3, 119)]) init_cache) = 1 /\
  queries (run 30000 (reads [(1, 100); (2, 105); (3, 119)]) init_cache) = 1.
Proof.
  assert (Hwin : forall p, In p [(2, 105); (3, 119)] -> snd p < 100 + throttle_ms).
  { intros p [<- | [<- | []]]; unfold throttle_ms; simpl; lia. }
  destruct (coalesced_reads 30000 init_cache 1 100 [(2, 105); (3, 119)]
              (proj1 (Nat.leb_le throttle_ms 30000) eq_refl) eq_refl Hwin) as [Hf [Hq _]].
  split; [exact Hf | exact Hq].
Defined.

(** C3: when the transport reports an error for the current query, every
    reader waiting on the share resolves with [{ connected: false }] (all
    other fields absent), the failure is logged, and the share resets; a
    reply that fails to parse is absorbed the same way, with the parser's
    error logged after its own diagnostics. *)
Theorem query_failure_degrades (T : nat) (c : Cache) (cn : Conn) (q t : nat)
  (Hc : Cache.conn c = Some cn) (Hq : inner cn = Some (IQuery q)) :
  let c' := step T (EReply q QErr t) c in
  degraded = mkFanStatus (Some false) None None None None /\
  resolved c' = (resolved c ++ map (fun w => (w, degraded)) (waiters cn))%list /\
  diags c' = (diags c ++ [DStatusError QueryFailure])%list /\
  Cache.conn c' = None /\
  (forall res e, fst (parseDeviceResponse res) = Throw e ->
     let c'' := step T (EReply q (QRes res) t) c in
     resolved c'' = (resolved c ++ map (fun w => (w, degraded)) (waiters cn))%list /\
     diags c'' = (diags c ++ snd (parseDeviceResponse res) ++ [DStatusError e])%list /\
     Cache.conn c'' = None).
Proof.
  assert (Hf : fire_timers T t c = c) by (unfold fire_timers; rewrite Hc, Hq; reflexivity).
  cbv zeta. simpl. rewrite Hf. unfold reply. rewrite Hc, Hq, Nat.eqb_refl.
  simpl. unfold emit. rewrite Hc.
  split; [reflexivity|]. split; [reflexivity|]. split; [reflexivity|].
  split; [reflexivity|].
  intros res e He.
  destruct (parseDeviceResponse res) as [r ds]. simpl in He. subst r.
  simpl. repeat split.
Qed.

Lemma query_failure_witness :
  resolved (step 30000 (EReply 0 QErr 300) (run 30000 (reads [(1, 100); (2, 110)]) init_cache)) =
  [(1, degraded); (2, degraded)].
Proof.
  destruct (query_failure_degrades 30000 (run 30000 (reads [(1, 100); (2, 110)]) init_cache)
              (mkConn [1; 2] (Some 100) (Some (IQuery 0))) 0 300 eq_refl eq_refl)
    as [_ [Hr _]].
  exact Hr.
Defined.

(* ------------------------------------------------------------------ *)
(** ** Further properties of the adapters *)

Lemma ceil25_step (p : Z) : ((p + 24) / 25 = (p - 1) / 25 + 1)%Z.
Proof.
  replace (p + 24)%Z with (p - 1 + 1 * 25)%Z by lia.
  rewrite Z.div_add by lia. reflexivity.
Qed.

(** A percentage in 1..100 written by [setIntensity] reads back, once the
    device reports the level it was sent, as the percentage rounded up to a
    multiple of 25. *)
Theorem setIntensity_readback (p : Z) (Hp : (1 <= p <= 100)%Z) :
  exists m l,
    Accessory.setIntensity p = [FanIntensityChangeCommand m] /\
    intensity_value (Some (JStr m)) = Some l /\
    Accessory.fanIntensityToPercentage l = Ok (25 * ((p + 24) / 25))%Z.
Proof.
  unfold Accessory.setIntensity.
  replace (Z.eqb p 0) with false by (symmetry; apply Z.eqb_neq; lia).
  rewrite ceil25_step.
  destruct (div25_cases p Hp) as [[_ ->]|[[_ ->]|[[_ ->]|[_ ->]]]];
    do 2 eexists; repeat split.
Qed.

Lemma setIntensity_readback_witness :
  (1 <= 40 <= 100)%Z /\
  exists m l,
    Accessory.setIntensity 40 = [FanIntensityChangeCommand m] /\
    intensity_value (Some (JStr m)) = Some l /\
    Accessory.fanIntensityToPercentage l = Ok 50%Z.
Proof.
  assert (Hp : (1 <= 40 <= 100)%Z) by lia.
  split; [exact Hp | exact (setIntensity_readback 40 Hp)].
Defined.

(** Writing back the percentage [getIntensity] reports for a level sends
    that same level again. *)
Theorem percentage_roundtrip (l : FanLevel) (p : Z)
  (Hp : Accessory.fanIntensityToPercentage l = Ok p) :
  exists m, Accessory.setIntensity p = [FanIntensityChangeCommand m] /\
            intensity_value (Some (JStr m)) = Some l.
Proof.
  destruct l; simpl in Hp; injection Hp as <- || discriminate Hp;
    eexists; split; reflexivity.
Qed.

Lemma percentage_roundtrip_witness :
  Accessory.fanIntensityToPercentage L2 = Ok 75%Z /\
  exists m, Accessory.setIntensity 75 = [FanIntensityChangeCommand m] /\
            intensity_value (Some (JStr m)) = Some L2.
Proof.
  split; [reflexivity | exact (percentage_roundtrip L2 75 eq_refl)].
Defined.





Lemma intensity_value_not_L4 (v : option json) : intensity_value v <> Some L4.
Proof.
  unfold intensity_value.
  destruct (js_is v "0"), (js_is v "1"), (js_is v "2"), (js_is v "3"); discriminate.
Qed.

Lemma parseCapabilityStates_no_L4 (states : list json) (s : FanStatus) :
  fst (parseCapabilityStates states) = Ok s -> fanIntensity s <> Some L4.
Proof.
  unfold parseCapabilityStates. intros H.
  destruct (parse_loop states empty_status []) as [r log] eqn:E; simpl in H; subst r.
  destruct (parse_loop_fields _ _ _ _ _ E) as (_ & _ & ->& _ & _).
  intros HL.
  apply (last_entry_inv (fun l => l <> L4) fanIntensity_entry None states) in HL; [exact (HL eq_refl)| |].
  - intros st v Hv. unfold fanIntensity_entry in Hv.
    destruct (_ && _); [|discriminate].
    intros ->. exact (intensity_value_not_L4 _ Hv).
  - discriminate.
Qed.

Lemma parseDeviceResponse_states (res : DeviceQueryResult) (s : FanStatus) :
  fst (parseDeviceResponse res) = Ok s -> exists states, fst (parseCapabilityStates states) = Ok s.
Proof.
  unfold parseDeviceResponse.
  destruct (deviceStates res) as [[|d rest]|]; simpl; try discriminate.
  destruct (map_parse (capabilityStates d)) as [states|e]; simpl; [|discriminate].
  destruct (parseCapabilityStates states) as [r log2] eqn:E. simpl. intros ->.
  exists states. rewrite E. reflexivity.
Qed.

(** No value the status cache hands out has intensity ['4']. *)
Lemma inner_value_no_L4 (o : QueryOutcome) : fanIntensity (fst (inner_value o)) <> Some L4.
Proof.
  destruct o as [|res]; simpl; [discriminate|].
  destruct (parseDeviceResponse res) as [[s|e] ds] eqn:E; simpl; [|discriminate].
  destruct (parseDeviceResponse_states res s) as [states Hs]; [rewrite E; reflexivity|].
  exact (parseCapabilityStates_no_L4 states s Hs).
Qed.

(** When the status query fails, or its reply does not parse, every reader
    gets the snapshot [{ connected: false }], and [getActive],
    [getIntensity] and [getSwingMode] all reject with
    [SERVICE_COMMUNICATION_FAILURE]. *)
Theorem failed_status_getters (o : QueryOutcome)
  (Hfail : o = QErr \/ exists res e, o = QRes res /\ fst (parseDeviceResponse res) = Throw e) :
  fst (inner_value o) = degraded /\
  Accessory.getActive_after (fst (inner_value o)) = Throw CommunicationFailure /\
  Accessory.getIntensity_after (fst (inner_value o)) = Throw CommunicationFailure /\
  Accessory.getSwingMode_after (fst (inner_value o)) = Throw CommunicationFailure.
Proof.
  assert (Hd : fst (inner_value o) = degraded).
  { destruct Hfail as [-> | (res & e & -> & He)]; [reflexivity|].
    simpl. destruct (parseDeviceResponse res) as [r ds]. simpl in He. subst r. reflexivity. }
  rewrite Hd. repeat split.
Qed.

Lemma failed_status_getters_witness :
  Accessory.getIntensity_after (fst (inner_value (QRes (mkDeviceQueryResult (Some []) None))))
  = Throw CommunicationFailure.
Proof.
  destruct (failed_status_getters (QRes (mkDeviceQueryResult (Some []) None))) as (_ & _ & H & _).
  - right. exists (mkDeviceQueryResult (Some []) None), NoDeviceState. split; reflexivity.
  - exact H.
Defined.

Lemma emit_values (v : FanStatus) (ds : list Diag) (c : Cache) (x : nat * FanStatus) :
  In x (resolved (emit v ds c)) -> In x (resolved c) \/ snd x = v.
Proof.
  unfold emit. destruct (conn c) as [cn|]; simpl; [|auto].
  rewrite in_app_iff, in_map_iff. intros [H | (w & <- & _)]; auto.
Qed.

(** A resolution made by a step is the value of some query outcome. *)
Lemma step_resolved_values (T : nat) (e : Event) (c : Cache) (x : nat * FanStatus) :
  In x (resolved (step T e c)) ->
  In x (resolved c) \/ exists o, snd x = fst (inner_value o).
Proof.
  assert (Hf : forall t, In x (resolved (fire_timers T t c)) ->
                In x (resolved c) \/ exists o, snd x = fst (inner_value o)).
  { intros t. destruct (fire_timers_cases T t c) as [-> | ->]; [auto|].
    intros H. apply emit_values in H as [H | H]; [auto | right; exists QErr; exact H]. }
  destruct e as [w t|t|q o t|t]; simpl.
  - rewrite read_resolved. apply Hf.
  - rewrite (proj1 (initialized_keeps _)). apply Hf.
  - destruct (reply_cases q o (fire_timers T t c)) as [-> | ->]; [apply Hf|].
    intros H. apply emit_values in H as [H | H]; [exact (Hf t H) | right; exists o; exact H].
  - apply Hf.
Qed.

Lemma run_resolved_values (T : nat) (evs : list Event) :
  forall c x, In x (resolved (run T evs c)) ->
  In x (resolved c) \/ exists o, snd x = fst (inner_value o).
Proof.
  induction evs as [|e evs IH]; intros c x H; [auto|].
  unfold run in H; simpl in H. apply IH in H as [H | H]; [|auto].
  apply step_resolved_values in H. exact H.
Qed.

(** The polling callback never throws on a snapshot a reader receives from
    the status cache (a parsed status or the degraded one):
    [updateCharacteristics] never reaches the throwing default of
    [fanIntensityToPercentage].  It makes no update when [poll()] reports no
    change, and the poller always keeps the new snapshot. *)
Theorem pollTick_never_throws (T : nat) (c0 : Cache) (evs : list Event) (w : nat) (v : FanStatus)
  (previous : option FanStatus)
  (H0 : resolved c0 = []) (Hv : In (w, v) (resolved (run T evs c0))) :
  let '(us, r, previous') := Accessory.pollTick previous v in
  r = Ok tt /\ previous' = Some v /\
  (fst (Accessory.poll_after previous v) = None -> us = []).
Proof.
  assert (HL : fanIntensity v <> Some L4).
  { destruct (run_resolved_values T evs c0 (w, v) Hv) as [H | [o Ho]].
    - rewrite H0 in H. destruct H.
    - simpl in Ho. subst v. apply inner_value_no_L4. }
  unfold Accessory.pollTick, Accessory.poll_after.
  destruct (match previous with Some prev => _ | None => true end); simpl.
  - unfold Accessory.updateCharacteristics.
    destruct (fanIntensity v) as [[]|]; simpl;
      try (exfalso; apply HL; reflexivity);
      repeat split; discriminate.
  - repeat split.
Qed.

Lemma pollTick_witness :
  In (1, set_isOn true empty_status) (resolved (run 30000 (reads [(1, 100)] ++
       [EReply 0 (QRes (mkDeviceQueryResult (Some [mkDeviceState [power_on_text] JNull]) None)) 400])%list
       init_cache)) /\
  let '(us, r, previous') := Accessory.pollTick None (set_isOn true empty_status) in
  r = Ok tt /\ previous' = Some (set_isOn true empty_status) /\
  (fst (Accessory.poll_after None (set_isOn true empty_status)) = None -> us = []).
Proof.
  assert (Hv : In (1, set_isOn true empty_status) (resolved (run 30000 (reads [(1, 100)] ++
       [EReply 0 (QRes (mkDeviceQueryResult (Some [mkDeviceState [power_on_text] JNull]) None)) 400])%list
       init_cache))) by (vm_compute; left; reflexivity).
  split; [exact Hv|].
  exact (pollTick_never_throws 30000 init_cache _ 1 _ None eq_refl Hv).
Defined.

(** In the earlier adapter ([src/src/platformAccessory.ts]) a percentage in
    1..100 written by [setIntensity] reads back through [getIntensity], once
    the device reports the level sent and the fan is not reported off, as the
    percentage rounded up to a multiple of 25; a fan reported off reads 0
    whatever its intensity. *)
Theorem v1_setIntensity_readback (p : Z) (Hp : (1 <= p <= 100)%Z) :
  exists m l,
    AccessoryV1.setIntensity p = [FanIntensityChangeCommand m] /\
    intensity_value (Some (JStr m)) = Some l /\
    (forall s, isOn s <> Some false -> fanIntensity s = Some l ->
       AccessoryV1.getIntensity_after s = Ok (25 * ((p + 24) / 25))%Z) /\
    (forall s, isOn s = Some false -> AccessoryV1.getIntensity_after s = Ok 0%Z).
Proof.
  unfold AccessoryV1.setIntensity.
  replace (Z.eqb p 0) with false by (symmetry; apply Z.eqb_neq; lia).
  rewrite ceil25_step.
  assert (Hoff : forall s, isOn s = Some false -> AccessoryV1.getIntensity_after s = Ok 0%Z)
    by (intros s Hs; unfold AccessoryV1.getIntensity_after; rewrite Hs; reflexivity).
  assert (Hon : forall s l, isOn s <> Some false -> fanIntensity s = Some l ->
            AccessoryV1.getIntensity_after s =
            Ok (match l with L0 => 25 | L1 => 50 | L2 => 75 | _ => 100 end)%Z).
  { intros s l Hs Hl. unfold AccessoryV1.getIntensity_after. rewrite Hl.
    destruct (isOn s) as [[]|]; [reflexivity | congruence | reflexivity]. }
  destruct (div25_cases p Hp) as [[H1 ->]|[[H1 ->]|[[H1 ->]|[H1 ->]]]];
    repeat match goal with
           | |- context [Z.leb ?a ?b] => destruct (Z.leb_spec a b); try lia
           end;
    do 2 eexists; (split; [reflexivity|]); (split; [reflexivity|]);
    (split; [intros s Hs Hl; exact (Hon s _ Hs Hl) | exact Hoff]).
Qed.

Lemma v1_setIntensity_readback_witness :
  (1 <= 60 <= 100)%Z /\
  exists m l,
    AccessoryV1.setIntensity 60 = [FanIntensityChangeCommand m] /\
    intensity_value (Some (JStr m)) = Some l /\
    (forall s, isOn s <> Some false -> fanIntensity s = Some l ->
       AccessoryV1.getIntensity_after s = Ok 75%Z) /\
    (forall s, isOn s = Some false -> AccessoryV1.getIntensity_after s = Ok 0%Z).
Proof.
  assert (Hp : (1 <= 60 <= 100)%Z) by lia.
  split; [exact Hp | exact (v1_setIntensity_readback 60 Hp)].
Defined.

(** [parseDeviceResponse] reads only the first device state: further device
    states and the response's [errors] list never change the result; a
    non-empty [errors] list only adds one error report in front of the
    diagnostics. *)
Theorem parseDeviceResponse_first_state (d : DeviceState) (rest : list DeviceState)
  (errs : option (list json)) :
  fst (parseDeviceResponse (mkDeviceQueryResult (Some (d :: rest)) errs)) =
  fst (parseDeviceResponse (mkDeviceQueryResult (Some [d]) None)) /\
  snd (parseDeviceResponse (mkDeviceQueryResult (Some (d :: rest)) errs)) =
  ((match errs with Some ((_ :: _) as es) => [DErrResponse es] | _ => [] end) ++
   snd (parseDeviceResponse (mkDeviceQueryResult (Some [d]) None)))%list.
Proof.
  unfold parseDeviceResponse; simpl.
  destruct (map_parse (capabilityStates d)) as [states|e]; simpl.
  - destruct (parseCapabilityStates states) as [r log2]; simpl.
    split; [reflexivity | rewrite app_assoc; reflexivity].
  - split; reflexivity.
Qed.


Lemma parse_state_error (st : json) (fs : FanStatus) (e : JsError) :
  parse_state st fs = Throw e -> e = UnsupportedIntensity \/ e = TypeError.
Proof.
  destruct st; simpl; [intros H; injection H as <-; auto| ..];
  unfold parse_entry, warn;
  repeat match goal with
         | |- context [if ?b then _ else _] => destruct b
         | |- context [match intensity_value ?v with _ => _ end] => destruct (intensity_value v)
         | |- context [match timer_value ?v with _ => _ end] => destruct (timer_value v)
         end;
  intros H; try discriminate H; injection H as <-; auto.
Qed.

Lemma parse_loop_error (states : list json) (fs : FanStatus) (log log' : list Diag) (e : JsError) :
  parse_loop states fs log = (Throw e, log') -> e = UnsupportedIntensity \/ e = TypeError.
Proof.
  revert fs log; induction states as [|st rest IH]; intros fs log; simpl; [discriminate|].
  destruct (parse_state st fs) as [[fs1 ds]|e'] eqn:E; [apply IH|].
  intros H; injection H as <- _. exact (parse_state_error st fs e' E).
Qed.





(* ------------------------------------------------------------------ *)
(** ** Further properties of the status cache *)

Lemma emit_conn (v : FanStatus) (ds : list Diag) (c : Cache) : Cache.conn (emit v ds c) = None.
Proof. unfold emit. destruct (Cache.conn c) eqn:E; [reflexivity | exact E]. Qed.

Lemma cache_wf_emit (v : FanStatus) (ds : list Diag) (c : Cache) : cache_wf (emit v ds c).
Proof. unfold cache_wf. rewrite emit_conn. exact I. Qed.

Lemma cache_wf_fire (T t : nat) (c : Cache) : cache_wf c -> cache_wf (fire_timers T t c).
Proof. destruct (fire_timers_cases T t c) as [-> | ->]; [auto | intros _; apply cache_wf_emit]. Qed.

Lemma cache_wf_read (w t : nat) (c : Cache) : cache_wf c -> cache_wf (read w t c).
Proof.
  unfold cache_wf, read, start_fetch, with_conn.
  destruct (Cache.conn c) as [cn|]; simpl.
  - intros [Hw Hi].
    assert (Hw' : (waiters cn ++ [w])%list <> [])
      by (intros Hn; apply app_eq_nil in Hn as [_ Hn]; discriminate).
    destruct (window cn) as [t0|]; [destruct (Nat.ltb t (t0 + throttle_ms))|]; simpl;
      [split; [exact Hw' | exact Hi] | ..];
      destruct (ready c); simpl; (split; [exact Hw' | try (split; [reflexivity | lia]); reflexivity]).
  - intros _. destruct (ready c); simpl; (split; [discriminate | try (split; [reflexivity | lia]); reflexivity]).
Qed.

Lemma cache_wf_initialized (c : Cache) : cache_wf c -> cache_wf (initialized c).
Proof.
  unfold cache_wf, initialized.
  destruct (Cache.conn c) as [cn|]; simpl; [|auto].
  intros [Hw Hi]. destruct (inner cn) as [[t0|q]|] eqn:Ei; simpl in *; rewrite ?Ei.
  - split; [exact Hw | split; [reflexivity | lia]].
  - split; [exact Hw | split; [reflexivity | destruct Hi; lia]].
  - destruct Hi.
Qed.

Lemma cache_wf_reply (q : nat) (o : QueryOutcome) (c : Cache) : cache_wf c -> cache_wf (reply q o c).
Proof. destruct (reply_cases q o c) as [-> | ->]; [auto | intros _; apply cache_wf_emit]. Qed.

Lemma cache_wf_run (T : nat) (evs : list Event) : forall c, cache_wf c -> cache_wf (run T evs c).
Proof.
  induction evs as [|e evs IH]; intros c H; [exact H|].
  unfold run; simpl. apply IH.
  destruct e; simpl;
    [apply cache_wf_read | apply cache_wf_initialized | apply cache_wf_reply | idtac];
    apply cache_wf_fire; exact H.
Qed.

Lemma cache_wf_idle (c : Cache) : Cache.conn c = None -> cache_wf c.
Proof. unfold cache_wf. intros ->. exact I. Qed.

(** No reader waits forever on a reachable cache: whenever readers wait,
    either the inner waits on the readiness gate (the API is not
    initialised) and the gate's timeout resolves them all with the degraded
    snapshot, or a transport query is in flight and its reply, whatever it
    is, resolves them all with its one value. *)
Theorem cache_progress (T : nat) (c0 : Cache) (evs : list Event) (cn : Conn)
  (H0 : Cache.conn c0 = None) (Hc : Cache.conn (run T evs c0) = Some cn) :
  waiters cn <> [] /\
  ((exists t0, inner cn = Some (IGate t0) /\ ready (run T evs c0) = false /\
     forall t, t0 + T <= t ->
       resolved (step T (ETick t) (run T evs c0)) =
         (resolved (run T evs c0) ++ map (fun w => (w, degraded)) (waiters cn))%list /\
       Cache.conn (step T (ETick t) (run T evs c0)) = None) \/
   (exists q, inner cn = Some (IQuery q) /\
     forall o t,
       resolved (step T (EReply q o t) (run T evs c0)) =
         (resolved (run T evs c0) ++ map (fun w => (w, fst (inner_value o))) (waiters cn))%list /\
       Cache.conn (step T (EReply q o t) (run T evs c0)) = None)).
Proof.
  pose proof (cache_wf_run T evs c0 (cache_wf_idle c0 H0)) as Hwf.
  set (c := run T evs c0) in *.
  unfold cache_wf in Hwf. rewrite Hc in Hwf. destruct Hwf as [Hw Hi].
  split; [exact Hw|].
  destruct (inner cn) as [[t0|q]|] eqn:Ein; [left | right | destruct Hi].
  - exists t0. split; [reflexivity|]. split; [exact Hi|].
    intros t Ht. simpl. unfold fire_timers. rewrite Hc, Ein.
    replace (Nat.leb (t0 + T) t) with true by (symmetry; apply Nat.leb_le; exact Ht).
    destruct (emit_some degraded [DStatusError TimeoutError] c cn Hc) as [Hn Hr].
    split; [exact Hr | exact Hn].
  - exists q. split; [reflexivity|]. intros o t. simpl.
    assert (Hf : fire_timers T t c = c) by (unfold fire_timers; rewrite Hc, Ein; reflexivity).
    rewrite Hf. unfold reply. rewrite Hc, Ein, Nat.eqb_refl.
    destruct (inner_value o) as [v ds].
    destruct (emit_some v ds c cn Hc) as [Hn Hr].
    split; [exact Hr | exact Hn].
Qed.

Lemma cache_progress_witness :
  Cache.conn (run 30000 [ERead 1 100; ERead 2 110] (mkCache None false 0 0 [] [])) =
    Some (mkConn [1; 2] (Some 100) (Some (IGate 100))) /\
  resolved (step 30000 (ETick 30100) (run 30000 [ERead 1 100; ERead 2 110] (mkCache None false 0 0 [] [])))
    = [(1, degraded); (2, degraded)].
Proof.
  assert (Hc : Cache.conn (run 30000 [ERead 1 100; ERead 2 110] (mkCache None false 0 0 [] [])) =
               Some (mkConn [1; 2] (Some 100) (Some (IGate 100)))) by reflexivity.
  split; [exact Hc|].
  destruct (cache_progress 30000 (mkCache None false 0 0 [] []) [ERead 1 100; ERead 2 110] _ eq_refl Hc)
    as [_ [(t0 & Ht0 & _ & Hres) | (q & Hq & _)]]; [|discriminate Hq].
  injection Ht0 as <-.
  destruct (Hres 30100 (proj1 (Nat.leb_le (100 + 30000) 30100) eq_refl)) as [Hr _].
  exact Hr.
Defined.

(** A read arriving once the throttle window of a pending query has passed
    makes switchMap replace the inner: a new fetch and a new transport query
    start, every reader (old and new) now waits on the new query, and the
    reply to the old query is dropped without resolving anyone. *)
Theorem read_after_window_switches (T : nat) (c0 : Cache) (evs : list Event) (cn : Conn)
  (q t0 w t : nat)
  (H0 : Cache.conn c0 = None) (Hc : Cache.conn (run T evs c0) = Some cn)
  (Hq : inner cn = Some (IQuery q)) (Hwin : window cn = Some t0)
  (Ht : t0 + throttle_ms <= t) :
  Cache.conn (step T (ERead w t) (run T evs c0)) =
    Some (mkConn (waiters cn ++ [w])%list (Some t) (Some (IQuery (queries (run T evs c0))))) /\
  fetches (step T (ERead w t) (run T evs c0)) = S (fetches (run T evs c0)) /\
  queries (step T (ERead w t) (run T evs c0)) = S (queries (run T evs c0)) /\
  resolved (step T (ERead w t) (run T evs c0)) = resolved (run T evs c0) /\
  (forall o t', step T (EReply q o t') (step T (ERead w t) (run T evs c0)) =
                step T (ERead w t) (run T evs c0)).
Proof.
  pose proof (cache_wf_run T evs c0 (cache_wf_idle c0 H0)) as Hwf.
  set (c := run T evs c0) in *.
  unfold cache_wf in Hwf. rewrite Hc, Hq in Hwf. destruct Hwf as [_ [Hready Hlt]].
  assert (Hf : fire_timers T t c = c) by (unfold fire_timers; rewrite Hc, Hq; reflexivity).
  assert (Hs : step T (ERead w t) c =
               mkCache (Some (mkConn (waiters cn ++ [w])%list (Some t) (Some (IQuery (queries c)))))
                 (ready c) (S (fetches c)) (S (queries c)) (resolved c) (diags c)).
  { simpl. rewrite Hf. unfold read. rewrite Hc. simpl. rewrite Hwin.
    replace (Nat.ltb t (t0 + throttle_ms)) with false by (symmetry; apply Nat.ltb_ge; exact Ht).
    unfold start_fetch. rewrite Hready. reflexivity. }
  rewrite Hs. repeat split.
  intros o t'. simpl. unfold reply, fire_timers. simpl.
  replace (Nat.eqb q (queries c)) with false by (symmetry; apply Nat.eqb_neq; lia).
  reflexivity.
Qed.

Lemma read_after_window_witness :
  Cache.conn (run 30000 [ERead 1 100] init_cache) = Some (mkConn [1] (Some 100) (Some (IQuery 0))) /\
  Cache.resolved (step 30000 (EReply 0 QErr 140)
                    (step 30000 (ERead 2 130) (run 30000 [ERead 1 100] init_cache))) = [].
Proof.
  assert (Hc : Cache.conn (run 30000 [ERead 1 100] init_cache) =
               Some (mkConn [1] (Some 100) (Some (IQuery 0)))) by reflexivity.
  split; [exact Hc|].
  destruct (read_after_window_switches 30000 init_cache [ERead 1 100] _ 0 100 2 130
              eq_refl Hc eq_refl eq_refl (proj1 (Nat.leb_le (100 + throttle_ms) 130) eq_refl))
    as (_ & _ & _ & Hr & Hstale).
  rewrite Hstale. exact Hr.
Defined.

Lemma queries_bound_emit (v : FanStatus) (ds : list Diag) (c : Cache) :
  queries (emit v ds c) + gated (emit v ds c) + fetches c <= fetches (emit v ds c) + queries c + gated c.
Proof.
  unfold gated. rewrite emit_conn. unfold emit. destruct (Cache.conn c); simpl; lia.
Qed.

Lemma queries_bound_step (T : nat) (e : Event) (c : Cache) :
  queries (step T e c) + gated (step T e c) + fetches c <= fetches (step T e c) + queries c + gated c.
Proof.
  assert (Hf : forall t, queries (fire_timers T t c) + gated (fire_timers T t c) + fetches c <=
                         fetches (fire_timers T t c) + queries c + gated c).
  { intros t. destruct (fire_timers_cases T t c) as [-> | ->]; [lia | apply queries_bound_emit]. }
  destruct e as [w t|t|q o t|t]; simpl; specialize (Hf t);
    remember (fire_timers T t c) as c1; clear Heqc1.
  - enough (queries (read w t c1) + gated (read w t c1) + fetches c1 <=
            fetches (read w t c1) + queries c1 + gated c1) by lia.
    unfold read, start_fetch, with_conn, gated.
    destruct (Cache.conn c1) as [cn|]; simpl;
      [destruct (window cn) as [t0|]; [destruct (Nat.ltb t (t0 + throttle_ms))|]|];
      simpl; try (destruct (inner cn) as [[]|]; simpl; lia);
      destruct (ready c1); simpl; try (destruct (inner cn) as [[]|]); simpl; lia.
  - enough (queries (initialized c1) + gated (initialized c1) + fetches c1 <=
            fetches (initialized c1) + queries c1 + gated c1) by lia.
    unfold initialized, gated.
    destruct (Cache.conn c1) as [cn|]; simpl; [|lia].
    destruct (inner cn) as [[]|] eqn:Ei; simpl; rewrite ?Ei; lia.
  - destruct (reply_cases q o c1) as [-> | ->]; [lia|].
    pose proof (queries_bound_emit (fst (inner_value o)) (snd (inner_value o)) c1). lia.
  - exact Hf.
Qed.

(** Every [getDeviceStatus] subscription the cache starts calls
    [querySmarthomeDevices] at most once: from an idle cache, the transport
    queries sent never outnumber the fetches started (a fetch still behind
    the readiness gate counts as one query to come). *)
Theorem queries_le_fetches (T : nat) (c0 : Cache) (evs : list Event)
  (H0 : Cache.conn c0 = None) :
  queries (run T evs c0) + gated (run T evs c0) + fetches c0 <=
  fetches (run T evs c0) + queries c0.
Proof.
  assert (Hg : gated c0 = 0) by (unfold gated; rewrite H0; reflexivity).
  enough (forall c, queries (run T evs c) + gated (run T evs c) + fetches c <=
                    fetches (run T evs c) + queries c + gated c) by (specialize (H c0); lia).
  induction evs as [|e evs IH]; intros c; [simpl; lia|].
  unfold run in *; simpl.
  specialize (IH (step T e c)). pose proof (queries_bound_step T e c). lia.
Qed.

Lemma queries_le_fetches_witness :
  queries (run 30000 [ERead 1 100; ERead 2 130; ERead 3 131] init_cache) = 2 /\
  queries (run 30000 [ERead 1 100; ERead 2 130; ERead 3 131] init_cache)
  + gated (run 30000 [ERead 1 100; ERead 2 130; ERead 3 131] init_cache) + 0 <=
  fetches (run 30000 [ERead 1 100; ERead 2 130; ERead 3 131] init_cache) + 0.
Proof.
  split; [reflexivity|].
  exact (queries_le_fetches 30000 init_cache [ERead 1 100; ERead 2 130; ERead 3 131] eq_refl).
Defined.

Lemma logged_states_app (l1 l2 : list Diag) :
  logged_states (l1 ++ l2)%list = (logged_states l1 ++ logged_states l2)%list.
Proof. induction l1 as [|[] r IH]; simpl; rewrite ?IH; reflexivity. Qed.

Lemma parse_state_no_log (st : json) (fs fs' : FanStatus) (ds : list Diag) :
  parse_state st fs = Ok (fs', ds) -> logged_states ds = [].
Proof.
  destruct st; simpl; [discriminate| ..];
  unfold parse_entry, warn;
  repeat match goal with
         | |- context [if ?b then _ else _] => destruct b
         | |- context [match intensity_value ?v with _ => _ end] => destruct (intensity_value v)
         | |- context [match timer_value ?v with _ => _ end] => destruct (timer_value v)
         end;
  intros H; try discriminate H; injection H as _ <-; reflexivity.
Qed.

Lemma parse_loop_logged (states : list json) (fs : FanStatus) (log : list Diag)
  (r : result FanStatus) (log' : list Diag) :
  parse_loop states fs log = (r, log') ->
  ((exists s, r = Ok s) -> logged_states log' = (logged_states log ++ states)%list) /\
  (forall e, r = Throw e ->
     exists pre st post s, states = (pre ++ st :: post)%list /\
       fst (parse_loop pre fs log) = Ok s /\ parse_state st s = Throw e /\
       logged_states log' = (logged_states log ++ pre ++ [st])%list).
Proof.
  revert fs log; induction states as [|st rest IH]; intros fs log; simpl.
  - intros H; injection H as <- <-. split.
    + intros _. rewrite app_nil_r. reflexivity.
    + intros e He; discriminate.
  - destruct (parse_state st fs) as [[fs1 ds]|e] eqn:E.
    + intros H. destruct (IH _ _ H) as [Hok Hth].
      rewrite !logged_states_app, (parse_state_no_log _ _ _ _ E) in Hok, Hth. simpl in Hok, Hth.
      split.
      * intros Hs. rewrite (Hok Hs), app_nil_r, <- app_assoc. reflexivity.
      * intros e He. destruct (Hth e He) as (pre & st' & post & s & -> & Hpre & Hst & Hl).
        exists (st :: pre), st', post, s. split; [reflexivity|].
        split; [simpl; rewrite E; exact Hpre|]. split; [exact Hst|].
        rewrite Hl, app_nil_r, <- app_assoc. reflexivity.
    + intros H; injection H as <- <-. split.
      * intros [s Hs]; discriminate.
      * intros e' He'. injection He' as <-. exists [], st, rest, fs.
        split; [reflexivity|]. split; [reflexivity|]. split; [exact E|].
        rewrite logged_states_app. reflexivity.
Qed.

(** [parseCapabilityStates] prints every entry with [console.log] before
    interpreting it: a parse that succeeds has printed all entries in order;
    a parse that throws [e] has printed, in order, the entries up to and
    including the one that threw, and none after it: the entries before it
    parse to some status [s], and the last entry printed throws [e] on [s]. *)
Theorem parseCapabilityStates_logs (states : list json) :
  ((exists s, fst (parseCapabilityStates states) = Ok s) ->
     logged_states (snd (parseCapabilityStates states)) = states) /\
  (forall e, fst (parseCapabilityStates states) = Throw e ->
     exists pre st post s, states = (pre ++ st :: post)%list /\
       fst (parseCapabilityStates pre) = Ok s /\ parse_state st s = Throw e /\
       logged_states (snd (parseCapabilityStates states)) = (pre ++ [st])%list).
Proof.
  unfold parseCapabilityStates.
  destruct (parse_loop states empty_status []) as [r log'] eqn:E. simpl.
  exact (parse_loop_logged states empty_status [] r log' E).
Qed.

Lemma parseCapabilityStates_logs_witness :
  fst (parseCapabilityStates
         [JObj [("namespace", JStr "Alexa.EndpointHealth")];
          JObj [("namespace", JStr "Alexa.ModeController"); ("instance", JStr "1"); ("value", JStr "7")];
          JObj [("namespace", JStr "Alexa.PowerController"); ("value", JStr "ON")]])
  = Throw UnsupportedIntensity /\
  exists pre st post s,
    [JObj [("namespace", JStr "Alexa.EndpointHealth")];
     JObj [("namespace", JStr "Alexa.ModeController"); ("instance", JStr "1"); ("value", JStr "7")];
     JObj [("namespace", JStr "Alexa.PowerController"); ("value", JStr "ON")]]
    = (pre ++ st :: post)%list /\
    fst (parseCapabilityStates pre) = Ok s /\ parse_state st s = Throw UnsupportedIntensity /\
    logged_states (snd (parseCapabilityStates
         [JObj [("namespace", JStr "Alexa.EndpointHealth")];
          JObj [("namespace", JStr "Alexa.ModeController"); ("instance", JStr "1"); ("value", JStr "7")];
          JObj [("namespace", JStr "Alexa.PowerController"); ("value", JStr "ON")]]))
    = (pre ++ [st])%list.
Proof.
  assert (H : fst (parseCapabilityStates
         [JObj [("namespace", JStr "Alexa.EndpointHealth")];
          JObj [("namespace", JStr "Alexa.ModeController"); ("instance", JStr "1"); ("value", JStr "7")];
          JObj [("namespace", JStr "Alexa.PowerController"); ("value", JStr "ON")]])
         = Throw UnsupportedIntensity) by reflexivity.
  split; [exact H|].
  exact (proj2 (parseCapabilityStates_logs _) UnsupportedIntensity H).
Defined.
